(** * Stock predictor: cache, indicators, scaling, ensemble and model loader

    A shallow embedding of the inference-time core of the stock predictor:
    the aggregator's [DataCache] and fetch methods, the indicator engine,
    the feature scaler, the ensemble combiner and the model loader.

    Numbers.  A JavaScript [number] is modelled by [num]: an exact rational,
    or one of the three special values [+Infinity], [-Infinity] and [NaN].
    The arithmetic follows IEEE-754 for the special values (division by zero,
    [Infinity - Infinity], [NaN] propagation, comparisons with [NaN]) and is
    exact on finite values: rounding, overflow and the sign of zero are not
    modelled.  Wall-clock times are integers (milliseconds). *)

From Stdlib Require Import QArith Qabs Qround Lqa ZArith Lia Ascii String.
From stdpp Require Import gmap strings list.

(** ** JavaScript numbers *)

Module JS.

Inductive num : Type :=
| Fin (q : Q)
| PInf
| NInf
| NaN.

Declare Scope js_scope.
Delimit Scope js_scope with js.
Bind Scope js_scope with num.
Notation "# q" := (Fin q%Q) (at level 5, q at level 1, format "# q") : js_scope.

Definition is_nan (a : num) : bool :=
  match a with NaN => true | _ => false end.

(** Sign of a number as a [comparison] with zero ([Eq] for zero and NaN). *)
Definition sgn (a : num) : comparison :=
  match a with
  | Fin q => (q ?= 0)%Q
  | PInf => Gt
  | NInf => Lt
  | NaN => Eq
  end.

Definition sgn_mul (c d : comparison) : comparison :=
  match c, d with
  | Eq, _ | _, Eq => Eq
  | Gt, Gt | Lt, Lt => Gt
  | Gt, Lt | Lt, Gt => Lt
  end.

(** An infinity of the given sign; [0 * Infinity] and [0 / 0] are [NaN]. *)
Definition inf_of (c : comparison) : num :=
  match c with Gt => PInf | Lt => NInf | Eq => NaN end.

Definition neg (a : num) : num :=
  match a with
  | Fin q => Fin (- q)
  | PInf => NInf
  | NInf => PInf
  | NaN => NaN
  end.

Definition add (a b : num) : num :=
  match a, b with
  | NaN, _ | _, NaN => NaN
  | Fin x, Fin y => Fin (x + y)
  | PInf, NInf | NInf, PInf => NaN
  | PInf, _ | _, PInf => PInf
  | NInf, _ | _, NInf => NInf
  end.

Definition sub (a b : num) : num := add a (neg b).

Definition mul (a b : num) : num :=
  match a, b with
  | NaN, _ | _, NaN => NaN
  | Fin x, Fin y => Fin (x * y)
  | _, _ => inf_of (sgn_mul (sgn a) (sgn b))
  end.

(** [a / b].  A finite nonzero value over zero is an infinity with the sign of
    the numerator (the zero is taken to be [+0]); [0 / 0] is [NaN]. *)
Definition div (a b : num) : num :=
  match a, b with
  | NaN, _ | _, NaN => NaN
  | Fin x, Fin y => if Qeq_bool y 0 then inf_of (sgn a) else Fin (x / y)
  | Fin _, _ => Fin 0
  | _, Fin y => if Qeq_bool y 0 then a else inf_of (sgn_mul (sgn a) (sgn b))
  | _, _ => NaN
  end.

(** [a < b], [a > b], [a === b]: all false as soon as one side is [NaN]. *)
Definition lt (a b : num) : bool :=
  match a, b with
  | NaN, _ | _, NaN => false
  | Fin x, Fin y => match (x ?= y)%Q with Lt => true | _ => false end
  | PInf, _ | _, NInf => false
  | _, _ => true
  end.

Definition gt (a b : num) : bool := lt b a.

Definition seq (a b : num) : bool :=
  match a, b with
  | Fin x, Fin y => Qeq_bool x y
  | PInf, PInf | NInf, NInf => true
  | _, _ => false
  end.

(** [Math.abs], [Math.max], [Math.min], [Math.sign]. *)
Definition abs (a : num) : num :=
  match a with
  | Fin q => Fin (Qabs q)
  | PInf | NInf => PInf
  | NaN => NaN
  end.

Definition max (a b : num) : num :=
  if is_nan a || is_nan b then NaN else if lt a b then b else a.

Definition min (a b : num) : num :=
  if is_nan a || is_nan b then NaN else if lt b a then b else a.

Definition sign (a : num) : num :=
  match a with
  | NaN => NaN
  | _ => match sgn a with Gt => Fin 1 | Lt => Fin (-1) | Eq => Fin 0 end
  end.

(** Truthiness of a number: [0] and [NaN] are falsy. *)
Definition truthy (a : num) : bool :=
  match a with
  | Fin q => negb (Qeq_bool q 0)
  | NaN => false
  | _ => true
  end.

(** [x || d] where [x] is a number or [undefined] ([None]). *)
Definition or_else (x : option num) (d : num) : num :=
  match x with
  | Some a => if truthy a then a else d
  | None => d
  end.

(** A number read where one is expected in arithmetic: [undefined] acts as
    [NaN] ([undefined - 1], [1 / undefined], [undefined === 0] is false). *)
Definition of_undef (x : option num) : num :=
  match x with Some a => a | None => NaN end.

(** Equality of numbers up to the representation of the rational. *)
Definition eqn (a b : num) : Prop :=
  match a, b with
  | Fin x, Fin y => (x == y)%Q
  | PInf, PInf | NInf, NInf | NaN, NaN => True
  | _, _ => False
  end.

(** [lo <= a <= hi] for a finite [a]. *)
Definition within (lo hi : Q) (a : num) : Prop :=
  match a with
  | Fin q => (lo <= q /\ q <= hi)%Q
  | _ => False
  end.

(** Finite numbers, and positive finite numbers. *)
Definition is_fin (a : num) : Prop := exists q, a = Fin q.
Definition is_pos (a : num) : Prop := exists q, a = Fin q /\ (0 < q)%Q.

Infix "+" := add : js_scope.
Infix "-" := sub : js_scope.
Infix "*" := mul : js_scope.
Infix "/" := div : js_scope.

End JS.

(** ** Strings: [toUpperCase] and [toLowerCase] on ASCII text *)

Module Str.

Definition upper_ascii (c : ascii) : ascii :=
  let n := nat_of_ascii c in
  if (97 <=? n)%nat && (n <=? 122)%nat then ascii_of_nat (n - 32) else c.

Definition lower_ascii (c : ascii) : ascii :=
  let n := nat_of_ascii c in
  if (65 <=? n)%nat && (n <=? 90)%nat then ascii_of_nat (n + 32) else c.

Fixpoint map_string (f : ascii -> ascii) (s : string) : string :=
  match s with
  | EmptyString => EmptyString
  | String c r => String (f c) (map_string f r)
  end.

Definition toUpperCase : string -> string := map_string upper_ascii.
Definition toLowerCase : string -> string := map_string lower_ascii.

End Str.

(** ** The ensemble combiner ([StockPredictor]) *)

Module Predictor.
Import JS.

Inductive Direction := up | down | neutral.

Record EnsembleConfig := {
  lstm_weight : num;
  xgboost_weight : num;
  neutral_threshold : num;
  lstm_bias_correction : num;
  xgboost_bias_correction : num
}.

(** [arr[i]] for a computed index [i]: [undefined] outside the array. *)
Definition at_index (arr : list num) (i : Z) : option num :=
  if (i <? 0)%Z then None else arr !! Z.to_nat i.

(** [predictXGBoostFallback(features, lstmPrediction, currentPrice)]. *)
Definition predictXGBoostFallback
    (features : list num) (lstmPrediction currentPrice : num) : num :=
  let len := Z.of_nat (length features) in
  let momentum5 := or_else (at_index features (len - 5)) #0 in
  let momentum10 := or_else (at_index features (len - 4)) #0 in
  let rsi := or_else (at_index features 5) #50 in
  let adjustment :=
    if gt momentum5 #0 && gt momentum10 #0 then (currentPrice * #0.005)%js
    else if lt momentum5 #0 && lt momentum10 #0
         then (neg currentPrice * #0.005)%js
         else (#0)%js in
  let adjustment :=
    if gt rsi #70 then (adjustment - currentPrice * #0.003)%js
    else if lt rsi #30 then (adjustment + currentPrice * #0.003)%js
         else adjustment in
  (lstmPrediction * #0.9 + (currentPrice + adjustment) * #0.1)%js.

(** [ensemblePrediction(lstmPred, xgbPred, currentPrice, config)]. *)
Definition ensemblePrediction
    (lstmPred xgbPred currentPrice : num) (config : EnsembleConfig) : num :=
  let correctedLstm := (lstmPred + lstm_bias_correction config)%js in
  let correctedXgb := (xgbPred + xgboost_bias_correction config)%js in
  (lstm_weight config * correctedLstm + xgboost_weight config * correctedXgb)%js.

(** The configuration used by [predict]: the loaded one, or the default
    built around the [lstmWeight] option ([lstmWeight || 0.6]). *)
Definition effective_config (loaded : option EnsembleConfig)
    (lstmWeight : option num) : EnsembleConfig :=
  match loaded with
  | Some config => config
  | None =>
      {| lstm_weight := or_else lstmWeight #0.6;
         xgboost_weight := (#1 - or_else lstmWeight #0.6)%js;
         neutral_threshold := #0.005;
         lstm_bias_correction := #0;
         xgboost_bias_correction := #0 |}
  end.

(** [calculateConfidence(lstmPred, xgbPred, currentPrice)]. *)
Definition calculateConfidence (lstmPred xgbPred currentPrice : num) : num :=
  let avgPrediction := ((lstmPred + xgbPred) / #2)%js in
  let predictionDiff := abs (lstmPred - xgbPred) in
  let relativeDiff := (predictionDiff / avgPrediction)%js in
  let agreementScore := max #0 (#1 - relativeDiff * #10) in
  let lstmDirection := sign (lstmPred - currentPrice) in
  let xgbDirection := sign (xgbPred - currentPrice) in
  let directionBonus :=
    if seq lstmDirection xgbDirection then (#0.1)%js else neg #0.1 in
  let confidence := ((agreementScore + directionBonus) * #100)%js in
  max #0 (min #100 confidence).

(** The direction computed by [predict] from the final prediction, the
    current price and the configured neutral threshold. *)
Definition predict_direction
    (finalPrediction currentPrice neutral_threshold : num) : Direction :=
  let priceChange := (finalPrediction - currentPrice)%js in
  let priceChangePercent := (priceChange / currentPrice * #100)%js in
  if lt (abs priceChangePercent) (neutral_threshold * #100) then neutral
  else if gt priceChange #0 then up
  else down.

(** [getPredictionDirection(predictedPrice, currentPrice, neutralThreshold)]
    of the ensemble utilities; the threshold defaults to [0.005]. *)
Definition getPredictionDirection
    (predictedPrice currentPrice : num) (neutralThreshold : option num)
    : Direction :=
  let neutralThreshold :=
    match neutralThreshold with Some t => t | None => (#0.005)%js end in
  let changePercent := ((predictedPrice - currentPrice) / currentPrice)%js in
  if lt (abs changePercent) neutralThreshold then neutral
  else if gt changePercent #0 then up else down.

End Predictor.

(** ** The aggregator's cache ([DataCache]) *)

Module Cache.

Section DataCache.
Context {T : Type}.

(** [CacheEntry<T>]: the stored value and [Date.now()] at the write. *)
Record CacheEntry := { data : T; timestamp : Z }.

(** The cache object: the [Map] of entries, and the deletions that [set]
    has scheduled with [setTimeout], each with the time at which it is due
    and the key it deletes. *)
Record DataCache := {
  cache : gmap string CacheEntry;
  timers : list (Z * string)
}.

Definition empty : DataCache := {| cache := ∅; timers := [] |}.

Definition defaultTTL : Z := 60000.

(** [get(key)] at time [now]: the value or [null], and the cache after the
    call (a stale entry is deleted). *)
Definition get (now : Z) (key : string) (c : DataCache) : option T * DataCache :=
  match cache c !! key with
  | None => (None, c)
  | Some entry =>
      if (now - timestamp entry >? defaultTTL)%Z
      then (None, {| cache := delete key (cache c); timers := timers c |})
      else (Some (data entry), c)
  end.

(** [set(key, data, ttl?)] at time [now].  [if (ttl)] holds for a supplied
    nonzero [ttl]. *)
Definition set (now : Z) (key : string) (d : T) (ttl : option Z)
    (c : DataCache) : DataCache :=
  {| cache := <[key := {| data := d; timestamp := now |}]> (cache c);
     timers :=
       match ttl with
       | Some t => if (t =? 0)%Z then timers c else timers c ++ [((now + t)%Z, key)]
       | None => timers c
       end |}.

Definition clear (c : DataCache) : DataCache :=
  {| cache := ∅; timers := timers c |}.

(** The event loop reaching time [now]: every scheduled deletion that is due
    runs ([this.cache.delete(key)]) and is discarded. *)
Definition run_timers (now : Z) (c : DataCache) : DataCache :=
  {| cache :=
       foldl (fun m t => if (t.1 <=? now)%Z then delete t.2 m else m)
             (cache c) (timers c);
     timers := filter (fun t => (now < t.1)%Z) (timers c) |}.

End DataCache.

Arguments CacheEntry : clear implicits.
Arguments DataCache : clear implicits.

End Cache.

(** ** Shared data types ([types/stock]) *)

Module Types.
Import JS.

(** Dates are milliseconds since the epoch ([Date.getTime()]). *)
Record StockQuote := {
  q_symbol : string;
  q_name : string;
  q_price : num;
  q_change : num;
  q_changePercent : num;
  q_open : num;
  q_high : num;
  q_low : num;
  q_volume : num;
  q_marketCap : option num;
  q_timestamp : Z
}.

Record HistoricalDataPoint := {
  date : Z;
  open : num;
  high : num;
  low : num;
  close : num;
  volume : num;
  adjClose : option num
}.

Record StockSearchResult := {
  s_symbol : string;
  s_name : string;
  s_exchange : string;
  s_type : string
}.

Record MACD := { macd : num; signal : num; histogram : num }.
Record Bollinger := { upper : num; middle : num; lower : num }.

Record TechnicalIndicators := {
  rsi : num;
  macd_ : MACD;
  bollingerBands : Bollinger;
  sma20 : num;
  sma50 : num;
  sma200 : num;
  ema12 : num;
  ema26 : num
}.

End Types.

(** ** Array helpers *)

Module Arr.
Import JS.
Local Open Scope js_scope.

(** [data.slice(-n)] for a non-negative integer [n]: the last [n] elements,
    all of them when [n] exceeds the length, and ([-0] being [0]) the whole
    array when [n] is [0]. *)
Definition slice_last {A} (n : nat) (data : list A) : list A :=
  match n with
  | O => data
  | _ => drop (length data - n)%nat data
  end.

(** [data.reduce((a, b) => a + b, 0)]. *)
Definition sum (data : list num) : num := foldl add #0 data.

(** The period as a number. *)
Definition of_nat (n : nat) : num := Fin (inject_Z (Z.of_nat n)).

End Arr.

(** ** The indicator engine of the aggregator ([StockDataAggregator]) *)

Module Indicators.
Import JS Types Arr.
Local Open Scope js_scope.

Section WithSqrt.
(** [Math.sqrt], which has no exact rational model, is left abstract. *)
Variable sqrt : num -> num.

Definition calculateSMA (data : list num) (period : nat) : num :=
  if (length data <? period)%nat then #0
  else (sum (slice_last period data) / of_nat period)%js.

Definition calculateEMA (data : list num) (period : nat) : num :=
  if (length data <? period)%nat then #0
  else
    let multiplier := (#2 / (of_nat period + #1))%js in
    let ema := calculateSMA (take period data) period in
    foldl (fun ema d => ((d - ema) * multiplier + ema)%js) ema (drop period data).

(** [changes[i-1] = data[i] - data[i-1]] for [1 <= i < data.length]. *)
Fixpoint changes_of (data : list num) : list num :=
  match data with
  | a :: (b :: _) as rest => (b - a)%js :: changes_of rest
  | _ => []
  end.

(** The loop that accumulates [gains] and [losses]. *)
Definition gains_losses (recentChanges : list num) : num * num :=
  foldl (fun gl change =>
           if gt change #0 then ((gl.1 + change)%js, gl.2)
           else (gl.1, (gl.2 - change)%js))
        (#0, #0) recentChanges.

Definition calculateRSI (data : list num) (period : nat) : num :=
  if (length data <? period + 1)%nat then #50
  else
    let changes := changes_of data in
    let recentChanges := slice_last period changes in
    let gl := gains_losses recentChanges in
    let avgGain := (gl.1 / of_nat period)%js in
    let avgLoss := (gl.2 / of_nat period)%js in
    if seq avgLoss #0 then #100
    else
      let rs := (avgGain / avgLoss)%js in
      (#100 - #100 / (#1 + rs))%js.

(** The loop of [calculateMACD]: the running 12- and 26-period EMAs from
    index 26 on, and the MACD values pushed so far. *)
Definition macd_loop (ema12Running ema26Running : num) (rest : list num)
    : num * num * list num :=
  foldl (fun st d =>
           let '(e12, e26, vals) := st in
           let e12' := ((d - e12) * (#2 / #13) + e12)%js in
           let e26' := ((d - e26) * (#2 / #27) + e26)%js in
           (e12', e26', vals ++ [(e12' - e26')%js]))
        (ema12Running, ema26Running, []) rest.

Definition calculateMACD (data : list num) : MACD :=
  let ema12 := calculateEMA data 12 in
  let ema26 := calculateEMA data 26 in
  let macdLine := (ema12 - ema26)%js in
  let ema12Running := calculateSMA (take 12 data) 12 in
  let ema26Running := calculateSMA (take 26 data) 26 in
  let macdValues := (macd_loop ema12Running ema26Running (drop 26 data)).2 in
  let signalLine :=
    if (9 <=? length macdValues)%nat then calculateEMA macdValues 9
    else macdLine in
  {| macd := macdLine; signal := signalLine;
     histogram := (macdLine - signalLine)%js |}.

(** [Math.pow(v - sma, 2)] is the product of [v - sma] with itself. *)
Definition calculateBollingerBands (data : list num) (period : nat) : Bollinger :=
  let sma := calculateSMA data period in
  let slice := slice_last period data in
  let squaredDiffs := map (fun v => ((v - sma) * (v - sma))%js) slice in
  let variance := (sum squaredDiffs / of_nat period)%js in
  let stdDev := sqrt variance in
  {| upper := (sma + #2 * stdDev)%js; middle := sma;
     lower := (sma - #2 * stdDev)%js |}.

(** [d.adjClose || d.close]. *)
Definition close_of (d : HistoricalDataPoint) : num :=
  or_else (adjClose d) (close d).

Definition calculateTechnicalIndicators (data : list HistoricalDataPoint)
    : option TechnicalIndicators :=
  if (length data <? 26)%nat then None
  else
    let closes := map close_of data in
    Some {| rsi := calculateRSI closes 14;
            macd_ := calculateMACD closes;
            bollingerBands := calculateBollingerBands closes 20;
            sma20 := calculateSMA closes 20;
            sma50 := if (50 <=? length data)%nat then calculateSMA closes 50 else #0;
            sma200 := if (200 <=? length data)%nat then calculateSMA closes 200 else #0;
            ema12 := calculateEMA closes 12;
            ema26 := calculateEMA closes 26 |}.

End WithSqrt.

End Indicators.

(** ** Feature scaling ([preprocessing]) *)

Module Preprocessing.
Import JS Arr.
Local Open Scope js_scope.

Record ScalerParams := {
  min_ : list num;
  scale_ : list num;
  data_min_ : list num;
  data_max_ : list num;
  data_range_ : list num
}.

(** The module's own [calculateRSI(data, period = 14)]. *)
Definition calculateRSI (data : list num) (period : nat) : num :=
  if (length data <? period + 1)%nat then #50
  else
    let changes :=
      (fix go (l : list num) : list num :=
         match l with
         | a :: (b :: _) as rest => (b - a) :: go rest
         | _ => []
         end) data in
    let recentChanges := slice_last period changes in
    let gl :=
      foldl (fun gl change =>
               if gt change #0 then (gl.1 + change, gl.2)
               else (gl.1, gl.2 - change))
            (#0, #0) recentChanges in
    let avgGain := gl.1 / of_nat period in
    let avgLoss := gl.2 / of_nat period in
    if seq avgLoss #0 then #100
    else
      let rs := avgGain / avgLoss in
      #100 - #100 / (#1 + rs).

(** One cell of [scaleFeatures]: the value at column [i] of a row. *)
Definition scale_cell (scalerParams : ScalerParams) (i : nat) (value : num) : num :=
  let range := of_undef (data_range_ scalerParams !! i) in
  if seq range #0 then #0
  else (value - of_undef (data_min_ scalerParams !! i)) / range.

Definition scaleFeatures (features : list (list num)) (scalerParams : ScalerParams)
    : list (list num) :=
  map (fun row => imap (scale_cell scalerParams) row) features.

(** [inverseScalePrice(scaledPrice, scalerParams, priceIndex = 3)]. *)
Definition inverseScalePrice (scaledPrice : num) (scalerParams : ScalerParams)
    (priceIndex : nat) : num :=
  let range := of_undef (data_range_ scalerParams !! priceIndex) in
  let min := of_undef (data_min_ scalerParams !! priceIndex) in
  scaledPrice * range + min.

End Preprocessing.

(** ** The model loader ([ModelLoader]) *)

Module ModelLoader.
Import Str.

(** A loaded TensorFlow model is a handle on runtime resources. *)
Definition LayersModel := nat.

Record ModelConfig := {
  symbol : string;
  sequenceLength : JS.num;
  featureColumns : list string;
  trainedAt : string
}.

Record LoadedModel := {
  lstmModel : option LayersModel;
  scalerParams : option Preprocessing.ScalerParams;
  ensembleConfig : option Predictor.EnsembleConfig;
  modelConfig : option ModelConfig
}.

(** How the four fetches of one load settled: [Some v] for a promise
    fulfilled with [v], [None] for a rejected one. *)
Record Settled := {
  got_lstm : option LayersModel;
  got_scaler : option Preprocessing.ScalerParams;
  got_ensemble : option Predictor.EnsembleConfig;
  got_config : option ModelConfig
}.

Definition all_rejected : Settled :=
  {| got_lstm := None; got_scaler := None; got_ensemble := None; got_config := None |}.

(** The paths requested by [loadModelsInternal(symbol)], in the order in
    which the four loads are started. *)
Definition artifact_paths (symbol : string) : list string :=
  let basePath := ("/models/" ++ symbol)%string in
  [ (basePath ++ "/lstm/model.json")%string;
    (basePath ++ "/scaler_params.json")%string;
    (basePath ++ "/ensemble_config.json")%string;
    (basePath ++ "/preprocessing_config.json")%string ].

(** The object built by [loadModelsInternal] once the four loads settled:
    a slot stays [null] when its load was rejected. *)
Definition loadModelsInternal_result (s : Settled) : LoadedModel :=
  {| lstmModel := got_lstm s;
     scalerParams := got_scaler s;
     ensembleConfig := got_ensemble s;
     modelConfig := got_config s |}.

(** The loader and what surrounds it: the two maps of the class, the
    promises returned by [loadModelsInternal] (numbered in creation order)
    that have resolved and their values, the calls of [loadModels] that are
    suspended at [await loadPromise] (promise awaited and cache key), the
    requests issued so far, and the models disposed of. *)
Record Loader := {
  modelCache : gmap string LoadedModel;
  loadingPromises : gmap string nat;
  resolved : gmap nat LoadedModel;
  suspended : gmap nat string;
  next_promise : nat;
  fetched : list string;
  disposed : list LayersModel
}.

Definition init : Loader :=
  {| modelCache := ∅; loadingPromises := ∅; resolved := ∅; suspended := ∅;
     next_promise := 0; fetched := []; disposed := [] |}.

(** What a call of [loadModels] hands to its caller: a model at once (the
    cached one), or the outcome of a pending [loadModelsInternal] promise. *)
Inductive Outcome :=
| Returned (m : LoadedModel)
| Awaits (pid : nat).

(** [loadModels(symbol)] up to its first suspension. *)
Definition loadModels (symbol : string) (st : Loader) : Outcome * Loader :=
  let upperSymbol := toUpperCase symbol in
  let lowerSymbol := toLowerCase symbol in
  match modelCache st !! upperSymbol with
  | Some m => (Returned m, st)
  | None =>
      match loadingPromises st !! upperSymbol with
      | Some pid => (Awaits pid, st)
      | None =>
          let pid := next_promise st in
          (Awaits pid,
           {| modelCache := modelCache st;
              loadingPromises := <[upperSymbol := pid]> (loadingPromises st);
              resolved := resolved st;
              suspended := <[pid := upperSymbol]> (suspended st);
              next_promise := S pid;
              fetched := fetched st ++ artifact_paths lowerSymbol;
              disposed := disposed st |})
      end
  end.

(** The four loads of promise [pid] have settled: the promise resolves. *)
Definition settle (pid : nat) (s : Settled) (st : Loader) : Loader :=
  {| modelCache := modelCache st;
     loadingPromises := loadingPromises st;
     resolved := <[pid := loadModelsInternal_result s]> (resolved st);
     suspended := suspended st;
     next_promise := next_promise st;
     fetched := fetched st;
     disposed := disposed st |}.

(** The rest of the call that started the load, after [await loadPromise]
    gave [result]: the [try] body and the [finally] block. *)
Definition loadModels_resume (pid : nat) (upperSymbol : string)
    (result : LoadedModel) (st : Loader) : LoadedModel * Loader :=
  (result,
   {| modelCache := <[upperSymbol := result]> (modelCache st);
      loadingPromises := delete upperSymbol (loadingPromises st);
      resolved := resolved st;
      suspended := delete pid (suspended st);
      next_promise := next_promise st;
      fetched := fetched st;
      disposed := disposed st |}).

Definition dispose_of (m : LoadedModel) : list LayersModel :=
  match lstmModel m with Some h => [h] | None => [] end.

(** [clearCache(symbol?)]: an absent or empty [symbol] clears every entry. *)
Definition clearCache (symbol : option string) (st : Loader) : Loader :=
  let clear_one := fun s : string =>
    let upper := toUpperCase s in
    {| modelCache := delete upper (modelCache st);
       loadingPromises := loadingPromises st;
       resolved := resolved st;
       suspended := suspended st;
       next_promise := next_promise st;
       fetched := fetched st;
       disposed :=
         disposed st ++
         match modelCache st !! upper with Some m => dispose_of m | None => [] end |} in
  let clear_all :=
    {| modelCache := ∅;
       loadingPromises := loadingPromises st;
       resolved := resolved st;
       suspended := suspended st;
       next_promise := next_promise st;
       fetched := fetched st;
       disposed :=
         disposed st ++ concat (map (fun kv => dispose_of kv.2) (map_to_list (modelCache st))) |} in
  match symbol with
  | Some s => if String.eqb s "" then clear_all else clear_one s
  | None => clear_all
  end.

Definition isModelLoaded (symbol : string) (st : Loader) : bool :=
  bool_decide (is_Some (modelCache st !! toUpperCase symbol)).

(** Events of the loader, and the executions they make up.  A promise
    resolves once, after it was created; a suspended call resumes once its
    promise has resolved. *)
Inductive Event :=
| Call (symbol : string)
| Settle (pid : nat) (s : Settled)
| Resume (pid : nat)
| Clear (symbol : option string).

Inductive step : Loader -> Event -> Loader -> Prop :=
| step_call symbol st :
    step st (Call symbol) (loadModels symbol st).2
| step_settle pid s st :
    (pid < next_promise st)%nat ->
    resolved st !! pid = None ->
    step st (Settle pid s) (settle pid s st)
| step_resume pid upperSymbol result st :
    suspended st !! pid = Some upperSymbol ->
    resolved st !! pid = Some result ->
    step st (Resume pid) (loadModels_resume pid upperSymbol result st).2
| step_clear symbol st :
    step st (Clear symbol) (clearCache symbol st).

Inductive steps : Loader -> list Event -> Loader -> Prop :=
| steps_nil st : steps st [] st
| steps_cons st e st' evs st'' :
    step st e st' -> steps st' evs st'' -> steps st (e :: evs) st''.

Definition reachable (st : Loader) : Prop := exists evs, steps init evs st.

(** Whether an event resolves promise [pid]; whether it evicts key [upper]. *)
Definition settles (pid : nat) (e : Event) : bool :=
  match e with Settle p _ => Nat.eqb p pid | _ => false end.

Definition evicts (upper : string) (e : Event) : bool :=
  match e with
  | Clear None => true
  | Clear (Some s) => String.eqb s "" || String.eqb (toUpperCase s) upper
  | _ => false
  end.

(** What a caller holding outcome [o] has received in state [st]: nothing
    yet ([None]) while the promise it awaits is pending. *)
Definition received (o : Outcome) (st : Loader) : option LoadedModel :=
  match o with
  | Returned m => Some m
  | Awaits pid => resolved st !! pid
  end.

(** Invariant of the executions: the suspended calls are the registered
    loads, of promises already created, and promises not yet created have
    not resolved. *)
Definition consistent (st : Loader) : Prop :=
  (forall pid upper,
     suspended st !! pid = Some upper <-> loadingPromises st !! upper = Some pid) /\
  (forall pid upper,
     suspended st !! pid = Some upper -> (pid < next_promise st)%nat) /\
  (forall pid, (next_promise st <= pid)%nat -> resolved st !! pid = None).

(** A load of key [upper] is in flight on promise [pid]. *)
Definition in_flight (upper : string) (pid : nat) (st : Loader) : Prop :=
  loadingPromises st !! upper = Some pid /\
  modelCache st !! upper = None /\
  resolved st !! pid = None /\
  (forall pid', suspended st !! pid' = Some upper -> pid' = pid).

(** Key [upper] holds [result] and no suspended call is about to write it. *)
Definition settled_in_cache (upper : string) (result : LoadedModel) (st : Loader) : Prop :=
  modelCache st !! upper = Some result /\
  (forall pid, suspended st !! pid <> Some upper).

(** Whether an event is a call of [loadModels] for key [upper]. *)
Definition calls (upper : string) (e : Event) : bool :=
  match e with
  | Call s => String.eqb (toUpperCase s) upper
  | _ => false
  end.

End ModelLoader.

(** ** The data aggregator ([StockDataAggregator]) *)

Module Aggregator.
Import JS Types Str.

Inductive Period := P1d | P5d | P1mo | P3mo | P6mo | P1y | P2y | P5y.

Definition period_name (p : Period) : string :=
  match p with
  | P1d => "1d" | P5d => "5d" | P1mo => "1mo" | P3mo => "3mo"
  | P6mo => "6mo" | P1y => "1y" | P2y => "2y" | P5y => "5y"
  end.

Definition periodDays (p : Period) : Z :=
  match p with
  | P1d => 1 | P5d => 5 | P1mo => 30 | P3mo => 90
  | P6mo => 180 | P1y => 365 | P2y => 730 | P5y => 1825
  end.

Inductive OutputSize := compact | full.

(** What the cache holds: the type parameter of [get<T>] is erased at run
    time, so a read returns whatever object was stored under the key. *)
Inductive Value :=
| VQuote (q : StockQuote)
| VBars (bars : list HistoricalDataPoint)
| VSearch (results : list StockSearchResult).

Definition is_empty (v : Value) : bool :=
  match v with
  | VBars [] | VSearch [] => true
  | _ => false
  end.

(** What the two source clients answer while a call is being served.  The
    clients never raise: they answer [null] or an empty array on failure. *)
Record Sources := {
  yahoo_getQuote : string -> option StockQuote;
  alpha_getQuote : string -> option StockQuote;
  yahoo_getHistoricalData : string -> Period -> list HistoricalDataPoint;
  alpha_getHistoricalData : string -> OutputSize -> list HistoricalDataPoint;
  yahoo_searchStocks : string -> list StockSearchResult
}.

(** The requests a call made to the source clients. *)
Inductive Query :=
| YahooQuote (symbol : string)
| AlphaQuote (symbol : string)
| YahooHistory (symbol : string) (period : Period)
| AlphaHistory (symbol : string) (outputSize : OutputSize)
| YahooSearch (query : string).

(** The outcome of a call: the value the promise resolves to ([None] for
    [null]), the cache afterwards, and the requests made.  Every object the
    cache can hold is truthy, so [if (cached)] tests for a hit. *)
Record Result := {
  returned : option Value;
  cache_after : Cache.DataCache Value;
  queries : list Query
}.

Definition quote_key (symbol : string) : string := ("quote:" ++ symbol)%string.

Definition historical_key (symbol : string) (period : Period) : string :=
  ("historical:" ++ symbol ++ ":" ++ period_name period)%string.

Definition search_key (query : string) : string :=
  ("search:" ++ toLowerCase query)%string.

(** [getQuote(symbol)], entered at time [now]; the source clients have
    answered by time [later].  A call is taken as a whole: no other call on
    the same aggregator runs between its cache read and its cache write. *)
Definition getQuote (now later : Z) (src : Sources) (symbol : string)
    (c : Cache.DataCache Value) : Result :=
  let cacheKey := quote_key symbol in
  let (cached, c) := Cache.get now cacheKey c in
  match cached with
  | Some v => {| returned := Some v; cache_after := c; queries := [] |}
  | None =>
      let (quote, asked) :=
        match yahoo_getQuote src symbol with
        | Some q => (Some q, [YahooQuote symbol])
        | None => (alpha_getQuote src symbol, [YahooQuote symbol; AlphaQuote symbol])
        end in
      let c :=
        match quote with
        | Some q => Cache.set later cacheKey (VQuote q) None c
        | None => c
        end in
      {| returned := VQuote <$> quote; cache_after := c; queries := asked |}
  end.

Definition is_intraday (p : Period) : bool :=
  match p with P1d | P5d => true | _ => false end.

(** [getHistoricalData(symbol, period)]. *)
Definition getHistoricalData (now later : Z) (src : Sources) (symbol : string)
    (period : Period) (c : Cache.DataCache Value) : Result :=
  let cacheKey := historical_key symbol period in
  let (cached, c) := Cache.get now cacheKey c in
  match cached with
  | Some v => {| returned := Some v; cache_after := c; queries := [] |}
  | None =>
      let data := yahoo_getHistoricalData src symbol period in
      let (data, asked) :=
        if (length data =? 0)%nat && negb (is_intraday period) then
          let outputSize :=
            match period with P1mo | P3mo => compact | _ => full end in
          let data := alpha_getHistoricalData src symbol outputSize in
          let cutoff := (later - periodDays period * 24 * 60 * 60 * 1000)%Z in
          (filter (fun d => (cutoff <= date d)%Z) data,
           [YahooHistory symbol period; AlphaHistory symbol outputSize])
        else (data, [YahooHistory symbol period]) in
      let c :=
        if (0 <? length data)%nat then
          let cacheTTL :=
            match period with P1d => 60000 | P5d => 120000 | _ => 300000 end%Z in
          Cache.set later cacheKey (VBars data) (Some cacheTTL) c
        else c in
      {| returned := Some (VBars data); cache_after := c; queries := asked |}
  end.

(** [searchStocks(query)]. *)
Definition searchStocks (now later : Z) (src : Sources) (query : string)
    (c : Cache.DataCache Value) : Result :=
  if (String.length query <? 1)%nat then
    {| returned := Some (VSearch []); cache_after := c; queries := [] |}
  else
    let cacheKey := search_key query in
    let (cached, c) := Cache.get now cacheKey c in
    match cached with
    | Some v => {| returned := Some v; cache_after := c; queries := [] |}
    | None =>
        let results := yahoo_searchStocks src query in
        let c :=
          if (0 <? length results)%nat
          then Cache.set later cacheKey (VSearch results) (Some 600000%Z) c
          else c in
        {| returned := Some (VSearch results); cache_after := c;
           queries := [YahooSearch query] |}
    end.

(** A result that carries no data: [null], or an empty array. *)
Definition is_absent (r : option Value) : bool :=
  match r with
  | None => true
  | Some v => is_empty v
  end.

(** The life of an aggregator: calls of the three fetch methods, and the
    event loop running the deletions that are due. *)
Inductive Op :=
| GetQuote (now later : Z) (src : Sources) (symbol : string)
| GetHistoricalData (now later : Z) (src : Sources) (symbol : string) (period : Period)
| SearchStocks (now later : Z) (src : Sources) (query : string)
| Timers (now : Z).

Definition exec (c : Cache.DataCache Value) (op : Op) : Cache.DataCache Value :=
  match op with
  | GetQuote now later src symbol => cache_after (getQuote now later src symbol c)
  | GetHistoricalData now later src symbol period =>
      cache_after (getHistoricalData now later src symbol period c)
  | SearchStocks now later src query =>
      cache_after (searchStocks now later src query c)
  | Timers now => Cache.run_timers now c
  end.

Definition run (ops : list Op) : Cache.DataCache Value :=
  foldl exec Cache.empty ops.

(** No entry of the cache holds an empty array. *)
Definition no_empty (c : Cache.DataCache Value) : Prop :=
  forall key entry,
    Cache.cache c !! key = Some entry -> is_empty (Cache.data entry) = false.

End Aggregator.

(** ** The tabular estimate as the specification words it

    The adjustment of the specification: half a percent of the current price
    with the sign on which the two momentum features agree, less 0.3% of it
    when the RSI feature exceeds 70, plus 0.3% of it when the RSI feature is
    below 30; and the blend of the estimate. *)

Module Claimed.

Definition claimed_adjustment (momentum5 momentum10 rsi p : Q) : Q :=
  ((if Qlt_le_dec 0 momentum5 then
      if Qlt_le_dec 0 momentum10 then 0.005 * p else 0
    else if Qlt_le_dec momentum5 0 then
      if Qlt_le_dec momentum10 0 then - (0.005 * p) else 0
    else 0)
   + (if Qlt_le_dec 70 rsi then - (0.003 * p)
      else if Qlt_le_dec rsi 30 then 0.003 * p else 0))%Q.

Definition claimed_tabular_estimate (momentum5 momentum10 rsi s p : Q) : Q :=
  (0.9 * s + 0.1 * (p + claimed_adjustment momentum5 momentum10 rsi p))%Q.

End Claimed.

(** ** Price series *)

Module Series.

(** A strictly increasing series of prices. *)
Fixpoint increasing (prices : list Q) : Prop :=
  match prices with
  | a :: (b :: _) as rest => (a < b)%Q /\ increasing rest
  | _ => True
  end.

End Series.

(** ** Request validation ([api/validation]) *)

Module Validation.
Import Str.

Record ValidationResult := { valid : bool; error : option string }.

Definition accepted : ValidationResult := {| valid := true; error := None |}.
Definition rejected (msg : string) : ValidationResult :=
  {| valid := false; error := Some msg |}.

(** White space and line terminators of ASCII text, as [trim] removes them. *)
Definition is_space (c : ascii) : bool :=
  let n := nat_of_ascii c in
  ((9 <=? n)%nat && (n <=? 13)%nat) || (n =? 32)%nat.

Fixpoint trim_start (s : string) : string :=
  match s with
  | String c r => if is_space c then trim_start r else s
  | EmptyString => EmptyString
  end.

Fixpoint trim_end (s : string) : string :=
  match s with
  | String c r =>
      match trim_end r with
      | EmptyString => if is_space c then EmptyString else String c EmptyString
      | r' => String c r'
      end
  | EmptyString => EmptyString
  end.

Definition trim (s : string) : string := trim_end (trim_start s).

(** A character of the class [[A-Z0-9.-]]. *)
Definition symbol_char (c : ascii) : bool :=
  let n := nat_of_ascii c in
  ((65 <=? n)%nat && (n <=? 90)%nat) || ((48 <=? n)%nat && (n <=? 57)%nat)
  || (n =? 46)%nat || (n =? 45)%nat.

Fixpoint all_chars (p : ascii -> bool) (s : string) : bool :=
  match s with
  | String c r => p c && all_chars p r
  | EmptyString => true
  end.

(** [/^[A-Z0-9.-]+$/.test(s)]. *)
Definition symbol_format (s : string) : bool :=
  negb (String.eqb s "") && all_chars symbol_char s.

(** [validateSymbol(symbol)]; [None] stands for an argument that is not a
    string. *)
Definition validateSymbol (symbol : option string) : ValidationResult :=
  match symbol with
  | None => rejected "Symbol is required"
  | Some symbol =>
      if String.eqb symbol "" then rejected "Symbol is required"
      else
        let cleanSymbol := toUpperCase (trim symbol) in
        if (String.length cleanSymbol =? 0)%nat then rejected "Symbol cannot be empty"
        else if (10 <? String.length cleanSymbol)%nat then rejected "Symbol too long"
        else if negb (symbol_format cleanSymbol) then rejected "Invalid symbol format"
        else accepted
  end.

Definition validPeriods : list string :=
  ["1d"; "5d"; "1mo"; "3mo"; "6mo"; "1y"; "2y"; "5y"].

Definition includes (l : list string) (s : string) : bool :=
  existsb (String.eqb s) l.

Definition validatePeriod (period : option string) : ValidationResult :=
  match period with
  | None => accepted
  | Some period =>
      if String.eqb period "" then accepted
      else if negb (includes validPeriods period)
      then rejected ("Invalid period. Must be one of: "
                     ++ String.concat ", " validPeriods)
      else accepted
  end.

Definition validateSearchQuery (query : option string) : ValidationResult :=
  match query with
  | None => rejected "Search query is required"
  | Some query =>
      if String.eqb query "" then rejected "Search query is required"
      else
        let cleanQuery := trim query in
        if (String.length cleanQuery =? 0)%nat then rejected "Search query cannot be empty"
        else if (100 <? String.length cleanQuery)%nat then rejected "Search query too long"
        else accepted
  end.

Definition sanitizeSymbol (symbol : string) : string := toUpperCase (trim symbol).

Definition sanitizePeriod (period : option string) : string :=
  match period with
  | Some period =>
      if negb (String.eqb period "") && includes validPeriods period then period
      else "1y"
  | None => "1y"
  end.

End Validation.

(** ** Kinds of cache keys

    The three fetch methods build keys that start with ["quote:"],
    ["historical:"] and ["search:"]; [key_holds key v] tells whether [v] is
    of the kind that the method owning [key] stores. *)

Module Keys.
Import Aggregator.

Definition key_holds (key : string) (v : Value) : bool :=
  match key, v with
  | String "q" _, VQuote _ => true
  | String "h" _, VBars _ => true
  | String "s" _, VSearch _ => true
  | _, _ => false
  end.

Definition well_kinded (c : Cache.DataCache Value) : Prop :=
  forall key entry,
    Cache.cache c !! key = Some entry -> key_holds key (Cache.data entry) = true.

End Keys.

(** ** Trends of a price series *)

Module Trend.

(** No price is lower than the one before it. *)
Fixpoint nondecreasing (prices : list Q) : Prop :=
  match prices with
  | a :: (b :: _) as rest => (a <= b)%Q /\ nondecreasing rest
  | _ => True
  end.

(** Every price is lower than the one before it. *)
Fixpoint decreasing (prices : list Q) : Prop :=
  match prices with
  | a :: (b :: _) as rest => (b < a)%Q /\ decreasing rest
  | _ => True
  end.

End Trend.

(** ** Feature engineering ([preprocessing]) *)

Module Features.
Import JS Types Arr.
Local Open Scope js_scope.

(** [data[data.length - 1]]: [undefined] on an empty array, where it acts
    as [NaN] in the arithmetic that follows. *)
Definition last_value (data : list num) : num := of_undef (last data).

(** The module's own moving averages: on a series shorter than the period
    they return its last value. *)
Definition calculateSMA (data : list num) (period : nat) : num :=
  if (length data <? period)%nat then last_value data
  else sum (slice_last period data) / of_nat period.

Definition calculateEMA (data : list num) (period : nat) : num :=
  if (length data <? period)%nat then last_value data
  else
    let multiplier := #2 / (of_nat period + #1) in
    let ema := calculateSMA (take period data) period in
    foldl (fun ema d => (d - ema) * multiplier + ema) ema (drop period data).

Definition calculateMACD (data : list num) : MACD :=
  let ema12 := calculateEMA data 12 in
  let ema26 := calculateEMA data 26 in
  let macdLine := ema12 - ema26 in
  let ema12Running := calculateSMA (take 12 data) 12 in
  let ema26Running := calculateSMA (take 26 data) 26 in
  let macdValues :=
    (foldl (fun st d =>
              let '(e12, e26, vals) := st in
              let e12' := (d - e12) * (#2 / #13) + e12 in
              let e26' := (d - e26) * (#2 / #27) + e26 in
              (e12', e26', vals ++ [e12' - e26']))
           (ema12Running, ema26Running, []) (drop 26 data)).2 in
  let signalLine :=
    if (9 <=? length macdValues)%nat then calculateEMA macdValues 9 else macdLine in
  {| macd := macdLine; signal := signalLine; histogram := macdLine - signalLine |}.

Section WithSqrt.
Variable sqrt : num -> num.

Definition calculateBollingerBands (data : list num) (period : nat) : Bollinger :=
  let sma := calculateSMA data period in
  let slice := slice_last period data in
  let squaredDiffs := map (fun v => (v - sma) * (v - sma)) slice in
  let variance := sum squaredDiffs / of_nat period in
  let stdDev := sqrt variance in
  {| upper := sma + #2 * stdDev; middle := sma; lower := sma - #2 * stdDev |}.

(** A bar together with the indicators computed at it:
    [HistoricalDataPoint & TechnicalIndicators]. *)
Record WithIndicators := {
  point : HistoricalDataPoint;
  indicators : TechnicalIndicators
}.

(** The indicators of bar [i], from the closes [upto] and including that
    bar ([closes.slice(0, i + 1)]) and its own close. *)
Definition indicators_at (upto : list num) (i : nat) (close : num)
    : TechnicalIndicators :=
  {| rsi := if (14 <=? i)%nat then Preprocessing.calculateRSI upto 14 else #50;
     macd_ := if (26 <=? i)%nat then calculateMACD upto
              else {| macd := #0; signal := #0; histogram := #0 |};
     bollingerBands :=
       if (20 <=? i)%nat then calculateBollingerBands upto 20
       else {| upper := close; middle := close; lower := close |};
     sma20 := if (20 <=? i)%nat then calculateSMA upto 20 else close;
     sma50 := if (50 <=? i)%nat then calculateSMA upto 50 else close;
     sma200 := if (200 <=? i)%nat then calculateSMA upto 200 else close;
     ema12 := if (12 <=? i)%nat then calculateEMA upto 12 else close;
     ema26 := if (26 <=? i)%nat then calculateEMA upto 26 else close |}.

(** [calculateTechnicalIndicators(data)] of the preprocessing module. *)
Definition calculateTechnicalIndicators (data : list HistoricalDataPoint)
    : list WithIndicators :=
  let closes := map close data in
  imap (fun i point =>
          {| point := point;
             indicators := indicators_at (take (i + 1) closes) i (close point) |})
       data.

(** [withIndicators[j].close]; the indices read by [prepareFeatures] are
    within the array. *)
Definition close_at (withIndicators : list WithIndicators) (j : nat) : num :=
  of_undef ((fun w => close (point w)) <$> withIndicators !! j).

(** [x !== 0 ? a : b]. *)
Definition if_nonzero (x a b : num) : num := if negb (seq x #0) then a else b.

(** The momentum over [k] bars at bar [i]. *)
Definition momentum (withIndicators : list WithIndicators) (i k : nat)
    (close : num) : num :=
  if (k <=? i)%nat && negb (seq (close_at withIndicators (i - k)) #0)
  then close / close_at withIndicators (i - k) - #1
  else #0.

(** The rolling volatility at bar [i]: the returns of the bars [i - 19] to
    [i], and their population standard deviation. *)
Definition rolling_returns (withIndicators : list WithIndicators) (i : nat)
    : list num :=
  flat_map (fun j =>
              if (0 <? j)%nat
              then [ (close_at withIndicators j - close_at withIndicators (j - 1))
                     / close_at withIndicators (j - 1) ]
              else [])
           (List.seq (i - 19) 20).

Definition rolling_volatility (withIndicators : list WithIndicators) (i : nat)
    : num :=
  if (20 <=? i)%nat then
    let returns := rolling_returns withIndicators i in
    let mean := sum returns / of_nat (length returns) in
    sqrt (foldl (fun a b => a + (b - mean) * (b - mean)) #0 returns
          / of_nat (length returns))
  else #0.

(** The feature vector of bar [i]. *)
Definition feature_row (data : list HistoricalDataPoint)
    (withIndicators : list WithIndicators) (i : nat) (d : WithIndicators)
    : list num :=
  let p := point d in
  let ind := indicators d in
  let prev_close := if (0 <? i)%nat then close_at withIndicators (i - 1) else close p in
  let dailyReturn := if_nonzero prev_close ((close p - prev_close) / prev_close) #0 in
  let volumeSMA :=
    if (20 <=? i)%nat then calculateSMA (map volume (take (i + 1) data)) 20
    else volume p in
  let volumeRatio := if_nonzero volumeSMA (volume p / volumeSMA) #1 in
  let momentum5 := momentum withIndicators i 5 (close p) in
  let momentum10 := momentum withIndicators i 10 (close p) in
  let momentum20 := momentum withIndicators i 20 (close p) in
  let volatility := rolling_volatility withIndicators i in
  let bb := bollingerBands ind in
  let bbWidth := if_nonzero (middle bb) ((upper bb - lower bb) / middle bb) #0 in
  [ open p; high p; low p; close p; volume p;
    rsi ind;
    macd (macd_ ind); signal (macd_ ind); histogram (macd_ ind);
    upper bb; middle bb; lower bb; bbWidth;
    sma20 ind; sma50 ind; ema12 ind; ema26 ind;
    dailyReturn; volatility; volumeRatio;
    momentum5; momentum10; momentum20;
    if_nonzero (sma20 ind) (close p / sma20 ind) #1;
    if_nonzero (sma50 ind) (close p / sma50 ind) #1 ].

Definition prepareFeatures (data : list HistoricalDataPoint) : list (list num) :=
  let withIndicators := calculateTechnicalIndicators data in
  imap (feature_row data withIndicators) withIndicators.

(** [createSequences(data, sequenceLength)]: one window per end index [i]
    from [sequenceLength] to [data.length]. *)
Definition createSequences {A} (data : list A) (sequenceLength : nat)
    : list (list A) :=
  map (fun i => take sequenceLength (drop (i - sequenceLength) data))
      (List.seq sequenceLength (length data + 1 - sequenceLength)).

(** [flattenForXgboost(data, lookback)]: one row per index [i] from
    [lookback] to [data.length - 1], the rows [i - lookback] to [i - 1]
    laid end to end. *)
Definition flattenForXgboost {A} (data : list (list A)) (lookback : nat)
    : list (list A) :=
  map (fun i => concat (take lookback (drop (i - lookback) data)))
      (List.seq lookback (length data - lookback)).

Record ProcessedFeatures := {
  raw : list (list num);
  scaled : list (list num);
  sequences : list (list (list num));
  flattenedForXgb : list (list num)
}.

Definition processDataForPrediction (data : list HistoricalDataPoint)
    (scalerParams : Preprocessing.ScalerParams) (sequenceLength : nat)
    : ProcessedFeatures :=
  let raw := prepareFeatures data in
  let validStartIndex := Nat.max 200 sequenceLength in
  let validRaw := drop validStartIndex raw in
  let scaled := Preprocessing.scaleFeatures validRaw scalerParams in
  {| raw := validRaw;
     scaled := scaled;
     sequences := createSequences scaled sequenceLength;
     flattenedForXgb := flattenForXgboost scaled 5 |}.

End WithSqrt.

End Features.

(** ** Ensemble utilities ([ensemble]) *)

Module Ensemble.
Import JS Arr.
Local Open Scope js_scope.

Record EnsembleWeights := { lstm : num; xgboost : num }.

(** [errors.reduce((a, b) => a + Math.abs(b), 0) / errors.length]. *)
Definition mean_abs_error (errors : list num) : num :=
  foldl (fun a b => a + abs b) #0 errors / of_nat (length errors).

Definition calculateOptimalWeights (lstmErrors xgboostErrors : list num)
    : EnsembleWeights :=
  let lstmMAE := mean_abs_error lstmErrors in
  let xgbMAE := mean_abs_error xgboostErrors in
  let totalError := lstmMAE + xgbMAE in
  if seq totalError #0 then {| lstm := #0.5; xgboost := #0.5 |}
  else {| lstm := xgbMAE / totalError; xgboost := lstmMAE / totalError |}.

Definition combineWeightedPredictions (lstmPrediction xgboostPrediction : num)
    (weights : EnsembleWeights) : num :=
  lstm weights * lstmPrediction + xgboost weights * xgboostPrediction.

(** [calculatePredictionConfidence]; [volatility] is [None] when the
    argument is left out.  The two directions are ['up'] exactly when the
    prediction exceeds the current price. *)
Definition calculatePredictionConfidence
    (lstmPrediction xgboostPrediction currentPrice : num)
    (volatility : option num) : num :=
  let avgPrediction := (lstmPrediction + xgboostPrediction) / #2 in
  let predictionDiff := abs (lstmPrediction - xgboostPrediction) in
  let relativeDiff :=
    if negb (seq avgPrediction #0) then predictionDiff / avgPrediction else #0 in
  let agreementScore := max #0 (#1 - relativeDiff * #5) in
  let lstmUp := gt lstmPrediction currentPrice in
  let xgbUp := gt xgboostPrediction currentPrice in
  let agreementScore :=
    if Bool.eqb lstmUp xgbUp then agreementScore + #0.1 else agreementScore - #0.2 in
  let agreementScore :=
    match volatility with
    | Some volatility =>
        if gt volatility #0 then
          let predictedChange := abs (avgPrediction - currentPrice) in
          let expectedRange := volatility * currentPrice * #2 in
          if gt predictedChange expectedRange then agreementScore * #0.8
          else agreementScore
        else agreementScore
    | None => agreementScore
    end in
  max #0 (min #100 (agreementScore * #100)).

End Ensemble.

(** ** The next trading day ([StockPredictor.getNextTradingDay])

    A local date and time is a day number (days since 1 January 1970, a
    Thursday) and the milliseconds elapsed in that day. *)

Module TradingDay.

Record LocalTime := { day : Z; ms : Z }.

(** [getDay()]: 0 for Sunday to 6 for Saturday. *)
Definition getDay (t : LocalTime) : Z := ((day t + 4) mod 7)%Z.

Definition getNextTradingDay (now : LocalTime) : LocalTime :=
  let d := getDay now in
  let daysToAdd := 1%Z in
  let daysToAdd := if (d =? 5)%Z then 3%Z else daysToAdd in
  let daysToAdd := if (d =? 6)%Z then 2%Z else daysToAdd in
  {| day := (day now + daysToAdd)%Z; ms := (16 * 60 * 60 * 1000)%Z |}.

End TradingDay.

(** ** The technical-analysis prediction of the prediction route *)

Module TechnicalPrediction.
Import JS Types Arr.
Local Open Scope js_scope.

(** [Math.round]: the nearest integer, halves going up. *)
Definition round (a : num) : num :=
  match a with
  | Fin q => Fin (inject_Z (Qfloor (q + 0.5)))
  | _ => a
  end.

Section WithSqrt.
Variable sqrt : num -> num.

Definition calculateVolatility (prices : list num) : num :=
  if (length prices <? 2)%nat then #0
  else
    let returns :=
      (fix go (l : list num) : list num :=
         match l with
         | a :: (b :: _) as rest => ((b - a) / a) :: go rest
         | _ => []
         end) prices in
    let mean := sum returns / of_nat (length returns) in
    let variance :=
      foldl (fun a b => a + (b - mean) * (b - mean)) #0 returns
      / of_nat (length returns) in
    sqrt variance.

(** The object returned by [generateTechnicalPrediction]; the fields that
    the answer without indicators leaves out are optional. *)
Record Prediction := {
  predictedPrice : num;
  currentPrice : option num;
  priceChange : option num;
  priceChangePercent : option num;
  direction : Predictor.Direction;
  confidence : num;
  signals : list string;
  scores : option (num * num)
}.

(** The signals and the bullish and bearish scores, as the successive
    tests of [generateTechnicalPrediction] build them. *)
Definition Tally : Type := list string * num * num.

Definition bullish (signal : option string) (weight : num) (t : Tally) : Tally :=
  let '(signals, bull, bear) := t in
  (match signal with Some s => signals ++ [s] | None => signals end,
   bull + weight, bear).

Definition bearish (signal : option string) (weight : num) (t : Tally) : Tally :=
  let '(signals, bull, bear) := t in
  (match signal with Some s => signals ++ [s] | None => signals end,
   bull, bear + weight).

(** [(recentPrices[recentPrices.length - 1] - recentPrices[0]) / recentPrices[0]]
    over the last five closes, 0 when there are fewer than two. *)
Definition recent_momentum (historicalData : list HistoricalDataPoint) : num :=
  let recentPrices := map close (slice_last 5 historicalData) in
  if (1 <? length recentPrices)%nat
  then (of_undef (last recentPrices) - of_undef (head recentPrices))
       / of_undef (head recentPrices)
  else #0.

Definition tally (currentPrice : num) (indicators : TechnicalIndicators)
    (historicalData : list HistoricalDataPoint) : Tally :=
  let t : Tally := ([], #0, #0) in
  let t :=
    if lt (rsi indicators) #30 then bullish (Some "RSI oversold - bullish") #2 t
    else if gt (rsi indicators) #70 then bearish (Some "RSI overbought - bearish") #2 t
    else if lt (rsi indicators) #50 then bearish None #0.5 t
    else bullish None #0.5 t in
  let t :=
    if gt (histogram (macd_ indicators)) #0 then bullish (Some "MACD bullish") #1 t
    else bearish (Some "MACD bearish") #1 t in
  let t :=
    if gt currentPrice (sma20 indicators)
    then bullish (Some "Price above SMA20 - bullish") #1 t
    else bearish (Some "Price below SMA20 - bearish") #1 t in
  let t :=
    if gt currentPrice (sma50 indicators) then bullish None #0.5 t
    else bearish None #0.5 t in
  let t :=
    if lt currentPrice (lower (bollingerBands indicators))
    then bullish (Some "Price at lower Bollinger Band - potential bounce") #1 t
    else if gt currentPrice (upper (bollingerBands indicators))
    then bearish (Some "Price at upper Bollinger Band - potential pullback") #1 t
    else t in
  let momentum := recent_momentum historicalData in
  if gt momentum #0.02 then bullish (Some "Strong upward momentum") #1 t
  else if lt momentum (neg #0.02) then bearish (Some "Strong downward momentum") #1 t
  else t.

Definition generateTechnicalPrediction (currentPrice : num)
    (indicators : option TechnicalIndicators)
    (historicalData : list HistoricalDataPoint) : Prediction :=
  match indicators with
  | None =>
      {| predictedPrice := currentPrice; currentPrice := None; priceChange := None;
         priceChangePercent := None; direction := Predictor.neutral;
         confidence := #0; signals := []; scores := None |}
  | Some indicators =>
      let '(signals, bullishScore, bearishScore) :=
        tally currentPrice indicators historicalData in
      let totalScore := bullishScore + bearishScore in
      let confidence :=
        if gt totalScore #0 then abs (bullishScore - bearishScore) / totalScore
        else #0 in
      let direction :=
        if gt bullishScore bearishScore then Predictor.up
        else if lt bullishScore bearishScore then Predictor.down
        else Predictor.neutral in
      let avgVolatility := calculateVolatility (map close historicalData) in
      let priceChangePercent :=
        match direction with
        | Predictor.up => avgVolatility * (bullishScore - bearishScore) * #0.1
        | Predictor.down => neg avgVolatility * (bearishScore - bullishScore) * #0.1
        | Predictor.neutral => #0
        end in
      let predictedPrice := currentPrice * (#1 + priceChangePercent) in
      {| predictedPrice := round (predictedPrice * #100) / #100;
         currentPrice := Some (round (currentPrice * #100) / #100);
         priceChange := Some (round ((predictedPrice - currentPrice) * #100) / #100);
         priceChangePercent := Some (round (priceChangePercent * #10000) / #100);
         direction := direction;
         confidence := round (confidence * #100);
         signals := signals;
         scores := Some (bullishScore, bearishScore) |}
  end.

End WithSqrt.

End TechnicalPrediction.

(** ** A further invariant of the loader *)

Module LoaderState.
Import ModelLoader.

(** Loads in flight and cache entries are for different keys, and each load
    started has made four requests. *)
Definition apart (st : Loader) : Prop :=
  (forall upper pid,
     loadingPromises st !! upper = Some pid -> modelCache st !! upper = None) /\
  length (fetched st) = (4 * next_promise st)%nat.

End LoaderState.

(** * Properties *)

(** ** Facts about JavaScript numbers *)

Import JS.
Local Open Scope js_scope.

Section JSFacts.
Implicit Types x y : Q.

Lemma lt_Fin x y : lt #x #y = true <-> (x < y)%Q.
Proof.
  simpl. rewrite Qlt_alt. destruct (x ?= y)%Q; split; congruence.
Qed.

Lemma lt_Fin_false x y : lt #x #y = false <-> (y <= x)%Q.
Proof.
  rewrite <- Bool.not_true_iff_false, lt_Fin. split; [apply Qnot_lt_le | apply Qle_not_lt].
Qed.

Lemma seq_Fin x y : seq #x #y = true <-> (x == y)%Q.
Proof. apply Qeq_bool_iff. Qed.

Lemma div_Fin x y : ~ (y == 0)%Q -> #x / #y = #(x / y).
Proof.
  intros H. simpl. destruct (Qeq_bool y 0) eqn:E; [|reflexivity].
  apply Qeq_bool_iff in E. contradiction.
Qed.

Lemma sub_Fin x y : #x - #y = #(x + - y).
Proof. reflexivity. Qed.

(** The final clamp [Math.max(0, Math.min(100, c))] lands in [[0,100]]
    unless [c] is [NaN]. *)
Lemma clamp_within c : c <> NaN -> within 0 100 (max #0 (min #100 c)).
Proof.
  intros H. destruct c as [q| | |]; try congruence;
    try (vm_compute; split; discriminate).
  unfold min. cbn [is_nan orb].
  destruct (lt #q #100) eqn:E1.
  - unfold max. cbn [is_nan orb]. destruct (lt #0 #q) eqn:E2.
    + apply lt_Fin in E1, E2. unfold within. lra.
    + unfold within. lra.
  - change (max #0 #100) with #100. unfold within. lra.
Qed.

End JSFacts.

(** ** The ensemble combiner *)

Section PredictorFacts.
Import Predictor.

Lemma Qabs_zero x : (Qabs x == 0)%Q -> (x == 0)%Q.
Proof.
  intros H. assert (Hle : (Qabs x <= 0)%Q) by (rewrite H; apply Qle_refl).
  apply Qabs_Qle_condition in Hle. lra.
Qed.

Lemma relativeDiff_cases (s t : Q) :
  ~ (s == 0 /\ t == 0)%Q ->
  let rel := abs (#s - #t) / ((#s + #t) / #2) in
  rel = PInf \/ exists r, rel = #r.
Proof.
  intros H. cbn [sub add neg abs].
  rewrite (div_Fin (s + t) 2) by (intros E; discriminate E).
  cbn [div]. destruct (Qeq_bool ((s + t) / 2) 0) eqn:E.
  - apply Qeq_bool_iff in E. cbn [sgn].
    destruct (Qcompare_spec (Qabs (s + - t)) 0) as [E0|E0|E0]; cbn [inf_of].
    + exfalso. apply H. apply Qabs_zero in E0.
      assert (E1 : (s + t == (s + t) / 2 * 2)%Q) by field.
      rewrite E in E1. split; lra.
    + pose proof (Qabs_nonneg (s + - t)). lra.
    + now left.
  - right. eauto.
Qed.

Lemma agreementScore_finite rel :
  rel = PInf \/ (exists r, rel = #r) -> exists a, max #0 (#1 - rel * #10) = #a.
Proof.
  intros [-> | [r ->]].
  - exists 0%Q. reflexivity.
  - cbn [mul sub neg add]. unfold max. cbn [is_nan orb].
    destruct (lt _ _); eauto.
Qed.

Lemma calculateConfidence_within (s t p : Q) :
  ~ (s == 0 /\ t == 0)%Q -> within 0 100 (calculateConfidence #s #t #p).
Proof.
  intros H. unfold calculateConfidence. apply clamp_within.
  destruct (agreementScore_finite _ (relativeDiff_cases s t H)) as [a ->].
  destruct (seq _ _); discriminate.
Qed.

(** C2.  When both component predictions are 0 the relative difference is
    [0 / 0]: the confidence is [NaN] whatever the current price, and so lies
    outside [[0,100]]; it is not 100 although the two predictions are equal
    and agree in direction. *)
Theorem calculateConfidence_zero_predictions (p : num) :
  calculateConfidence #0 #0 p = NaN /\
  ~ within 0 100 (calculateConfidence #0 #0 p) /\
  ~ eqn (calculateConfidence #0 #0 p) #100.
Proof.
  assert (E : calculateConfidence #0 #0 p = NaN).
  { unfold calculateConfidence.
    change (abs (#0 - #0) / ((#0 + #0) / #2)) with NaN.
    change (max #0 (#1 - NaN * #10)) with NaN.
    destruct (seq _ _); reflexivity. }
  rewrite E. repeat split; intros H; exact H.
Qed.

Lemma calculateConfidence_agree (s p : Q) :
  ~ (s == 0)%Q -> calculateConfidence #s #s #p = #100.
Proof.
  intros H. unfold calculateConfidence.
  assert (Hs : seq (sign (#s - #p)) (sign (#s - #p)) = true).
  { cbn [sub add neg sign sgn]. destruct (_ ?= _)%Q; reflexivity. }
  rewrite Hs.
  cbn [sub add neg abs].
  rewrite (div_Fin (s + s) 2) by (intros E; discriminate E).
  assert (Hhalf : ((s + s) / 2 == s)%Q) by field.
  rewrite div_Fin by (rewrite Hhalf; exact H).
  cbn [mul sub neg add].
  assert (Hd : (Qabs (s + - s) / ((s + s) / 2) == 0)%Q).
  { assert (E : (s + - s == 0)%Q) by lra. rewrite E. reflexivity. }
  unfold max at 2. cbn [is_nan orb].
  assert (Hlt : lt #0 #(1 + - (Qabs (s + - s) / ((s + s) / 2) * 10)) = true).
  { apply lt_Fin. rewrite Hd. reflexivity. }
  rewrite Hlt. cbn [add mul]. unfold min. cbn [is_nan orb].
  assert (Hlt2 : lt #((1 + - (Qabs (s + - s) / ((s + s) / 2) * 10) + 0.1) * 100) #100 = false).
  { apply lt_Fin_false. rewrite Hd. vm_compute. discriminate. }
  rewrite Hlt2. reflexivity.
Qed.

Lemma Qabs_scale_100 x t : (Qabs (x * 100) < t * 100 <-> Qabs x < t)%Q.
Proof.
  rewrite Qabs_Qmult. change (Qabs 100) with 100%Q. split; intros H; lra.
Qed.

Lemma predict_direction_neutral (f c t : Q) :
  (0 < c)%Q ->
  predict_direction #f #c #t = neutral <-> (Qabs ((f - c) / c) < t)%Q.
Proof.
  intros Hc. unfold predict_direction.
  rewrite sub_Fin, div_Fin by lra. cbn [mul abs].
  destruct (lt #(Qabs _) #(t * 100)) eqn:E.
  - apply lt_Fin in E. apply (proj1 (Qabs_scale_100 _ _)) in E. unfold Qminus. tauto.
  - apply lt_Fin_false in E. split.
    + destruct (gt _ _); discriminate.
    + intros H. apply (proj2 (Qabs_scale_100 _ _)) in H. unfold Qminus in H. lra.
Qed.

Lemma predict_direction_sign (f c t : Q) :
  (0 < c)%Q -> ~ (Qabs ((f - c) / c) < t)%Q ->
  ((0 < f - c)%Q -> predict_direction #f #c #t = up) /\
  ((f - c < 0)%Q -> predict_direction #f #c #t = down).
Proof.
  intros Hc Hn.
  assert (Hne : predict_direction #f #c #t <> neutral)
    by (rewrite predict_direction_neutral; assumption).
  unfold predict_direction in *.
  destruct (lt (abs _) _); [congruence|].
  rewrite sub_Fin. unfold gt. split; intros H.
  - assert (E : lt #0 #(f + - c) = true) by (apply lt_Fin; lra). now rewrite E.
  - assert (E : lt #0 #(f + - c) = false) by (apply lt_Fin_false; lra). now rewrite E.
Qed.

Lemma Qdiv_pos_sign (x c : Q) : (0 < c)%Q -> ((0 < x / c <-> 0 < x) /\ (x / c < 0 <-> x < 0))%Q.
Proof.
  intros Hc. assert (Hi : (0 < / c)%Q) by (apply Qinv_lt_0_compat; assumption).
  assert (E : (x == x / c * c)%Q) by (field; lra).
  unfold Qdiv in *. split; split; intros H; nra.
Qed.

Lemma getPredictionDirection_neutral (f c t : Q) :
  (0 < c)%Q ->
  getPredictionDirection #f #c (Some #t) = neutral <-> (Qabs ((f - c) / c) < t)%Q.
Proof.
  intros Hc. unfold getPredictionDirection.
  rewrite sub_Fin, div_Fin by lra. cbn [abs].
  destruct (lt #(Qabs _) #t) eqn:E.
  - apply lt_Fin in E. unfold Qminus. tauto.
  - apply lt_Fin_false in E. split.
    + destruct (gt _ _); discriminate.
    + intros H. unfold Qminus in H. lra.
Qed.

Lemma getPredictionDirection_sign (f c t : Q) :
  (0 < c)%Q -> ~ (Qabs ((f - c) / c) < t)%Q ->
  ((0 < f - c)%Q -> getPredictionDirection #f #c (Some #t) = up) /\
  ((f - c < 0)%Q -> getPredictionDirection #f #c (Some #t) = down).
Proof.
  intros Hc Hn.
  assert (Hne : getPredictionDirection #f #c (Some #t) <> neutral)
    by (rewrite getPredictionDirection_neutral; assumption).
  unfold getPredictionDirection in *.
  destruct (lt (abs _) _); [congruence|].
  rewrite sub_Fin, div_Fin by lra. unfold gt.
  destruct (Qdiv_pos_sign (f + - c) c Hc) as [Hp Hm].
  split; intros H.
  - assert (E : lt #0 #((f + - c) / c) = true) by (apply lt_Fin, Hp; lra). now rewrite E.
  - assert (E : lt #0 #((f + - c) / c) = false).
    { apply lt_Fin_false. apply Qlt_le_weak, Hm. lra. }
    now rewrite E.
Qed.

(** C3.  For a positive current price, the direction computed by [predict]
    is [neutral] exactly when the absolute relative change is below the
    neutral threshold, and otherwise [up] for a positive change and [down]
    for a negative one; [getPredictionDirection] classifies the same way and
    its threshold defaults to 0.005, which is also the threshold of
    [predict] when no configuration is loaded.  With current price 100 and threshold
    0.005, the predictions 100.3, 101 and 99 are classified [neutral], [up]
    and [down]. *)
Theorem direction_classification (f c t : Q) :
  (0 < c)%Q ->
  (predict_direction #f #c #t = neutral <-> (Qabs ((f - c) / c) < t)%Q) /\
  (~ (Qabs ((f - c) / c) < t)%Q ->
     ((0 < f - c)%Q -> predict_direction #f #c #t = up) /\
     ((f - c < 0)%Q -> predict_direction #f #c #t = down)) /\
  (getPredictionDirection #f #c (Some #t) = neutral <->
     (Qabs ((f - c) / c) < t)%Q) /\
  (~ (Qabs ((f - c) / c) < t)%Q ->
     ((0 < f - c)%Q -> getPredictionDirection #f #c (Some #t) = up) /\
     ((f - c < 0)%Q -> getPredictionDirection #f #c (Some #t) = down)) /\
  getPredictionDirection #f #c None = getPredictionDirection #f #c (Some #0.005) /\
  (forall lstmWeight, neutral_threshold (effective_config None lstmWeight) = #0.005) /\
  predict_direction #100.3 #100 #0.005 = neutral /\
  predict_direction #101 #100 #0.005 = up /\
  predict_direction #99 #100 #0.005 = down /\
  getPredictionDirection #100.3 #100 None = neutral /\
  getPredictionDirection #101 #100 None = up /\
  getPredictionDirection #99 #100 None = down.
Proof.
  intros Hc. split; [apply predict_direction_neutral; assumption|].
  split; [apply predict_direction_sign; assumption|].
  split; [apply getPredictionDirection_neutral; assumption|].
  split; [apply getPredictionDirection_sign; assumption|].
  repeat split; reflexivity.
Qed.

Lemma direction_classification_witness :
  (0 < 100)%Q /\
  predict_direction #101 #100 #0.005 = up /\
  getPredictionDirection #99 #100 (Some #0.005) = down.
Proof.
  assert (Hc : (0 < 100)%Q) by reflexivity.
  assert (Hn : ~ (Qabs ((101 - 100) / 100) < 0.005)%Q) by (vm_compute; discriminate).
  assert (Hn' : ~ (Qabs ((99 - 100) / 100) < 0.005)%Q) by (vm_compute; discriminate).
  destruct (direction_classification 101 100 0.005 Hc) as (_ & Hup & _).
  destruct (direction_classification 99 100 0.005 Hc) as (_ & _ & _ & Hdown & _).
  split; [exact Hc|]. split.
  - apply (Hup Hn). reflexivity.
  - apply (Hdown Hn'). reflexivity.
Defined.

Import Claimed.

Lemma or_else_Fin x d : ~ (x == 0)%Q -> or_else (Some #x) d = #x.
Proof.
  intros H. cbn. destruct (Qeq_bool x 0) eqn:E; [|reflexivity].
  apply Qeq_bool_iff in E. contradiction.
Qed.

Lemma or_else_zero_Fin x : exists y, or_else (Some #x) #0 = #y /\ (y == x)%Q.
Proof.
  cbn. destruct (Qeq_bool x 0) eqn:E; cbn.
  - apply Qeq_bool_iff in E. exists 0%Q. split; [reflexivity | now symmetry].
  - exists x. split; reflexivity.
Qed.

Ltac case_lt :=
  match goal with
  | |- context [lt #?a #?b] =>
      let E := fresh "E" in
      destruct (lt #a #b) eqn:E;
      [apply lt_Fin in E | apply lt_Fin_false in E]
  end.

(** The estimate is the specified one at the RSI that the code reads,
    [features[5] || 50]. *)
Lemma predictXGBoostFallback_read (features : list num) (m5 m10 r s p : Q) :
  at_index features (Z.of_nat (length features) - 5) = Some #m5 ->
  at_index features (Z.of_nat (length features) - 4) = Some #m10 ->
  or_else (at_index features 5) #50 = #r ->
  eqn (predictXGBoostFallback features #s #p)
      #(claimed_tabular_estimate m5 m10 r s p).
Proof.
  intros H5 H10 Hr. unfold predictXGBoostFallback.
  rewrite H5, H10, Hr.
  destruct (or_else_zero_Fin m5) as (a & -> & Ha).
  destruct (or_else_zero_Fin m10) as (b & -> & Hb).
  unfold gt, claimed_tabular_estimate, claimed_adjustment.
  repeat case_lt; cbn [andb neg mul add sub eqn];
    repeat destruct (Qlt_le_dec _ _); try lra.
Qed.

(** For a nonzero RSI feature the estimate is the specified one. *)
Lemma predictXGBoostFallback_claimed (features : list num) (m5 m10 r s p : Q) :
  at_index features (Z.of_nat (length features) - 5) = Some #m5 ->
  at_index features (Z.of_nat (length features) - 4) = Some #m10 ->
  at_index features 5 = Some #r ->
  ~ (r == 0)%Q ->
  eqn (predictXGBoostFallback features #s #p)
      #(claimed_tabular_estimate m5 m10 r s p).
Proof.
  intros H5 H10 Hr Hr0. apply predictXGBoostFallback_read; try assumption.
  rewrite Hr. apply or_else_Fin. assumption.
Qed.

Lemma claimed_rsi_0_vs_50 (m5 m10 s p : Q) :
  (claimed_tabular_estimate m5 m10 0 s p
   == claimed_tabular_estimate m5 m10 50 s p + 0.0003 * p)%Q.
Proof.
  unfold claimed_tabular_estimate, claimed_adjustment.
  destruct (Qlt_le_dec 70 0) as [H|_]; [lra|].
  destruct (Qlt_le_dec 0 30) as [_|H]; [|lra].
  destruct (Qlt_le_dec 70 50) as [H|_]; [lra|].
  destruct (Qlt_le_dec 50 30) as [H|_]; [lra|].
  repeat destruct (Qlt_le_dec _ _); lra.
Qed.

(** C7.  On a feature row whose RSI feature [features[5]] is 0, the code
    reads the RSI as 50 ([features[5] || 50]): the estimate is the specified
    one for an RSI of 50, with no RSI adjustment, and (the current price not
    being 0) differs from the specified estimate, which adds 0.3% of the
    current price for an RSI feature below 30.  On the row of 125 zeros with
    prediction and price 100 the code gives 100, the specification 100.03. *)
Theorem fallback_reads_zero_rsi_as_neutral (features : list num) (m5 m10 s p : Q) :
  at_index features (Z.of_nat (length features) - 5) = Some #m5 ->
  at_index features (Z.of_nat (length features) - 4) = Some #m10 ->
  at_index features 5 = Some #0 ->
  eqn (predictXGBoostFallback features #s #p)
      #(claimed_tabular_estimate m5 m10 50 s p) /\
  (~ (p == 0)%Q ->
   ~ eqn (predictXGBoostFallback features #s #p)
         #(claimed_tabular_estimate m5 m10 0 s p)) /\
  eqn (predictXGBoostFallback (repeat #0 125) #100 #100) #100 /\
  (claimed_tabular_estimate 0 0 0 100 100 == 100.03)%Q.
Proof.
  intros H5 H10 Hr.
  assert (E : eqn (predictXGBoostFallback features #s #p)
                  #(claimed_tabular_estimate m5 m10 50 s p)).
  { apply predictXGBoostFallback_read; try assumption. now rewrite Hr. }
  split; [exact E|]. split; [|split; vm_compute; reflexivity].
  intros Hp H. destruct (predictXGBoostFallback features #s #p) as [q| | |];
    cbn [eqn] in E, H; try contradiction.
  pose proof (claimed_rsi_0_vs_50 m5 m10 s p). lra.
Qed.

Lemma fallback_reads_zero_rsi_as_neutral_witness :
  let features := repeat #0.5 5 ++ [ #0 ] ++ repeat #0.5 119 in
  at_index features 5 = Some #0 /\
  eqn (predictXGBoostFallback features #100 #100) #100.05 /\
  (claimed_tabular_estimate 0.5 0.5 0 100 100 == 100.08)%Q.
Proof.
  intros features.
  destruct (fallback_reads_zero_rsi_as_neutral features 0.5 0.5 100 100
              eq_refl eq_refl eq_refl) as (H & _).
  split; [reflexivity|]. split; [|vm_compute; reflexivity].
  destruct (predictXGBoostFallback features #100 #100) as [q| | |];
    cbn [eqn] in H |- *; try contradiction.
  rewrite H. vm_compute. reflexivity.
Defined.

End PredictorFacts.

(** ** The cache *)

Section CacheFacts.
Import Cache.
Context {T : Type}.
Implicit Types (c : DataCache T) (key : string) (v : T) (ttl : option Z).

Lemma cache_set_lookup now key v ttl c :
  cache (set now key v ttl c) !! key = Some {| data := v; timestamp := now |}.
Proof. apply lookup_insert_eq. Qed.

(** Within the default TTL of its write, an entry is served. *)
Lemma get_set_fresh t0 t key v ttl c :
  (t - t0 <= defaultTTL)%Z ->
  get t key (set t0 key v ttl c) = (Some v, set t0 key v ttl c).
Proof.
  intros H. unfold get. rewrite cache_set_lookup. cbn [timestamp data].
  destruct (Z.gtb_spec (t - t0) defaultTTL); [lia | reflexivity].
Qed.

(** Past the default TTL of its write, an entry is a miss and is evicted,
    whatever TTL the write supplied. *)
Lemma get_set_stale t0 t key v ttl c :
  (defaultTTL < t - t0)%Z ->
  (get t key (set t0 key v ttl c)).1 = None /\
  cache (get t key (set t0 key v ttl c)).2 !! key = None.
Proof.
  intros H. unfold get. rewrite cache_set_lookup. cbn [timestamp data].
  destruct (Z.gtb_spec (t - t0) defaultTTL); [|lia].
  split; [reflexivity | apply lookup_delete_eq].
Qed.

(** A deletion scheduled by [set] is not due before its TTL has elapsed. *)
Lemma run_timers_not_due t0 t key v (d : Z) :
  (t < t0 + d)%Z ->
  cache (run_timers t (set t0 key v (Some d) empty)) !! key
  = Some {| data := v; timestamp := t0 |}.
Proof.
  intros H. unfold run_timers, set, empty. cbn [cache timers].
  destruct (Z.eqb_spec d 0); cbn [foldl app fst snd].
  - apply lookup_insert_eq.
  - destruct (Z.leb_spec (t0 + d) t); [lia | apply lookup_insert_eq].
Qed.

(** C1.  A value written at [t0] with a TTL [d] longer than the default one
    is a miss, and is evicted, at any time [t] later than [t0 + 60000],
    although [d] has not elapsed and the deletion scheduled by the write is
    not due: [get] compares the age of the entry with the default TTL only. *)
Theorem get_misses_before_supplied_ttl t0 t key v (d : Z) :
  (defaultTTL < t - t0)%Z ->
  (t < t0 + d)%Z ->
  let c1 := run_timers t (set t0 key v (Some d) empty) in
  cache c1 !! key = Some {| data := v; timestamp := t0 |} /\
  (get t key c1).1 = None /\
  cache (get t key c1).2 !! key = None.
Proof.
  intros Hage Hdue c1.
  assert (E : cache c1 !! key = Some {| data := v; timestamp := t0 |})
    by (apply run_timers_not_due; assumption).
  split; [exact E|]. unfold get. rewrite E. cbn [timestamp data].
  destruct (Z.gtb_spec (t - t0) defaultTTL); [|lia].
  split; [reflexivity | apply lookup_delete_eq].
Qed.

End CacheFacts.

Lemma get_misses_before_supplied_ttl_witness :
  (Cache.defaultTTL < 60001 - 0)%Z /\ (60001 < 0 + 600000)%Z /\
  (Cache.get 60001 "search:aapl"
     (Cache.run_timers 60001
        (Cache.set 0 "search:aapl" 7%nat (Some 600000%Z) Cache.empty))).1 = None.
Proof.
  assert (H1 : (Cache.defaultTTL < 60001 - 0)%Z) by reflexivity.
  assert (H2 : (60001 < 0 + 600000)%Z) by reflexivity.
  split; [exact H1|]. split; [exact H2|].
  exact (proj1 (proj2 (get_misses_before_supplied_ttl 0%Z 60001%Z "search:aapl" 7%nat 600000%Z H1 H2))).
Defined.

(** With a TTL below the default one the scheduled deletion does expire the
    entry: written with 1000 ms, a value is served at once and is a miss
    once the event loop has passed 1000 ms. *)
Example short_ttl_expires_by_timer :
  let c1 := Cache.set 0 "quote:AAPL" 7%nat (Some 1000%Z) Cache.empty in
  (Cache.get 0 "quote:AAPL" c1).1 = Some 7%nat /\
  (Cache.get 1001 "quote:AAPL" (Cache.run_timers 1001 c1)).1 = None.
Proof. split; vm_compute; reflexivity. Qed.

(** The deletion scheduled by an earlier write of a key also removes a later
    write of that key, before the TTL of the later write. *)
Example earlier_timer_deletes_later_write :
  let c1 := Cache.set 0 "historical:AAPL:1d" 1%nat (Some 60000%Z) Cache.empty in
  let c2 := Cache.set 50000 "historical:AAPL:1d" 2%nat (Some 60000%Z) c1 in
  (Cache.get 59999 "historical:AAPL:1d" (Cache.run_timers 59999 c2)).1 = Some 2%nat /\
  (Cache.get 60000 "historical:AAPL:1d" (Cache.run_timers 60000 c2)).1 = None.
Proof. split; vm_compute; reflexivity. Qed.

(** ** Feature scaling *)

Section ScalingFacts.
Import Preprocessing.

Lemma scaleFeatures_lookup features params (i f : nat) row value :
  features !! i = Some row -> row !! f = Some value ->
  (scaleFeatures features params !! i) ≫= (.!! f) = Some (scale_cell params f value).
Proof.
  intros Hi Hf. unfold scaleFeatures.
  rewrite list_lookup_fmap, Hi. cbn.
  rewrite list_lookup_imap, Hf. reflexivity.
Qed.

Lemma scale_cell_nonzero params f (x m r : Q) :
  data_min_ params !! f = Some #m ->
  data_range_ params !! f = Some #r ->
  ~ (r == 0)%Q ->
  scale_cell params f #x = #((x - m) / r).
Proof.
  intros Hm Hr Hr0. unfold scale_cell. rewrite Hm, Hr. cbn [of_undef].
  assert (E : seq #r #0 = false).
  { apply Bool.not_true_iff_false. rewrite seq_Fin. assumption. }
  rewrite E, sub_Fin, div_Fin by assumption. reflexivity.
Qed.

Lemma scale_cell_zero_range params f value (r : Q) :
  data_range_ params !! f = Some #r -> (r == 0)%Q ->
  scale_cell params f value = #0.
Proof.
  intros Hr Hr0. unfold scale_cell. rewrite Hr. cbn [of_undef].
  apply seq_Fin in Hr0. now rewrite Hr0.
Qed.

(** C6.  For a column [f] whose [data_range_] entry is a nonzero number, the
    scaled value of [x] is [(x - data_min_[f]) / data_range_[f]] and
    inverse-scaling it at index [f] gives [x] back (exactly, numbers being
    exact here); for a column whose [data_range_] entry is 0 the scaled
    value is 0. *)
Theorem scaling_round_trip features params (i f : nat) row (x m r : Q) :
  features !! i = Some row ->
  row !! f = Some #x ->
  data_min_ params !! f = Some #m ->
  data_range_ params !! f = Some #r ->
  (~ (r == 0)%Q ->
     exists scaled,
       (scaleFeatures features params !! i) ≫= (.!! f) = Some scaled /\
       eqn scaled #((x - m) / r) /\
       eqn (inverseScalePrice scaled params f) #x) /\
  ((r == 0)%Q ->
     (scaleFeatures features params !! i) ≫= (.!! f) = Some #0).
Proof.
  intros Hi Hf Hm Hr. rewrite (scaleFeatures_lookup _ _ _ _ _ _ Hi Hf). split.
  - intros Hr0. eexists. split; [reflexivity|].
    rewrite (scale_cell_nonzero _ _ _ _ _ Hm Hr Hr0). split; [cbn; reflexivity|].
    unfold inverseScalePrice. rewrite Hm, Hr. cbn [of_undef mul add eqn].
    field. assumption.
  - intros Hr0. f_equal. eapply scale_cell_zero_range; eassumption.
Qed.

End ScalingFacts.

Lemma scaling_round_trip_witness :
  let params :=
    {| Preprocessing.min_ := []; Preprocessing.scale_ := [];
       Preprocessing.data_min_ := [ #0; #0; #0; #100];
       Preprocessing.data_max_ := [ #1; #1; #1; #200];
       Preprocessing.data_range_ := [ #1; #1; #1; #100] |} in
  exists scaled,
    (Preprocessing.scaleFeatures [[ #0; #1; #0; #150]] params !! 0%nat) ≫= (.!! 3%nat)
      = Some scaled /\
    eqn scaled #((150 - 100) / 100) /\
    eqn (Preprocessing.inverseScalePrice scaled params 3) #150.
Proof.
  intros params.
  refine (proj1 (scaling_round_trip [[ #0; #1; #0; #150]] params 0 3
                   [ #0; #1; #0; #150] 150 100 100
                   eq_refl eq_refl eq_refl eq_refl) _).
  intros E. discriminate E.
Defined.


(** ** The relative strength index *)

Section RSIFacts.
Import Arr Indicators Series.

Lemma changes_of_finite prices : Forall is_fin (changes_of (map Fin prices)).
Proof.
  induction prices as [|a [|b rest] IH]; cbn; try constructor.
  - eexists; reflexivity.
  - exact IH.
Qed.

Lemma changes_of_increasing prices :
  increasing prices -> Forall is_pos (changes_of (map Fin prices)).
Proof.
  induction prices as [|a [|b rest] IH]; cbn; try constructor.
  - destruct H as [Hab _]. eexists; split; [reflexivity | lra].
  - apply IH, H.
Qed.

Lemma slice_last_Forall {A} (P : A -> Prop) n l :
  Forall P l -> Forall P (slice_last n l).
Proof. intros H. destruct n; cbn; [assumption | now apply Forall_drop]. Qed.

Lemma gains_losses_step_finite recent : forall g0 l0 : Q,
  Forall is_fin recent -> (0 <= g0)%Q -> (0 <= l0)%Q ->
  exists g l,
    foldl (fun gl change =>
             if gt change #0 then (gl.1 + change, gl.2)
             else (gl.1, gl.2 - change)) (#g0, #l0) recent = (#g, #l)
    /\ (0 <= g)%Q /\ (0 <= l)%Q.
Proof.
  induction recent as [|c rest IH]; intros g0 l0 Hfin Hg Hl.
  - exists g0, l0. cbn. auto.
  - inversion Hfin as [|? ? [q ->] Hrest]; subst. cbn [foldl fst snd].
    unfold gt. destruct (lt #0 #q) eqn:E.
    + apply lt_Fin in E. cbn [add]. apply IH; [assumption | lra | assumption].
    + apply lt_Fin_false in E. cbn [sub neg add].
      apply IH; [assumption | assumption | lra].
Qed.

Lemma gains_losses_step_pos recent : forall g0 l0 : num,
  Forall is_pos recent ->
  exists g,
    foldl (fun gl change =>
             if gt change #0 then (gl.1 + change, gl.2)
             else (gl.1, gl.2 - change)) (g0, l0) recent = (g, l0).
Proof.
  induction recent as [|c rest IH]; intros g0 l0 Hpos.
  - exists g0. reflexivity.
  - inversion Hpos as [|? ? (q & -> & Hq) Hrest]; subst. cbn [foldl fst snd].
    unfold gt. assert (E : lt #0 #q = true) by (apply lt_Fin; assumption).
    rewrite E. apply IH. assumption.
Qed.

Lemma of_nat_pos period : (1 <= period)%nat -> (0 < inject_Z (Z.of_nat period))%Q.
Proof.
  intros H. change 0%Q with (inject_Z 0). rewrite <- Zlt_Qlt. lia.
Qed.

Lemma calculateRSI_short (data : list num) period :
  (length data < period + 1)%nat -> calculateRSI data period = #50.
Proof.
  intros H. unfold calculateRSI.
  destruct (Nat.ltb_spec (length data) (period + 1)); [reflexivity | lia].
Qed.

Lemma calculateRSI_within prices period :
  (1 <= period)%nat -> within 0 100 (calculateRSI (map Fin prices) period).
Proof.
  intros Hp. unfold calculateRSI.
  destruct (_ <? _)%nat; [cbn; lra|].
  unfold gains_losses.
  destruct (gains_losses_step_finite
              (slice_last period (changes_of (map Fin prices))) 0 0)
    as (g & l & -> & Hg & Hl);
    [apply slice_last_Forall, changes_of_finite | lra | lra |].
  cbn [fst snd]. unfold of_nat.
  pose proof (of_nat_pos period Hp) as HP.
  set (P := inject_Z (Z.of_nat period)) in *.
  rewrite !div_Fin by lra.
  destruct (seq #(l / P) #0) eqn:E; [cbn; lra|].
  assert (Hl0 : ~ (l / P == 0)%Q).
  { intros H. apply seq_Fin in H. congruence. }
  rewrite div_Fin by assumption. cbn [add].
  assert (Hrs : (0 <= g / P / (l / P))%Q).
  { assert (HlP : (0 < l / P)%Q).
    { assert (0 <= l / P)%Q by (apply Qle_shift_div_l; lra). lra. }
    apply Qle_shift_div_l; [assumption|].
    assert (0 <= g / P)%Q by (apply Qle_shift_div_l; lra). lra. }
  set (rs := (g / P / (l / P))%Q) in *.
  rewrite div_Fin by lra. cbn [sub neg add within].
  assert (Hq : (0 < 100 / (1 + rs) /\ 100 / (1 + rs) <= 100)%Q).
  { split.
    - apply Qlt_shift_div_l; lra.
    - apply Qle_shift_div_r; nra. }
  lra.
Qed.

Lemma calculateRSI_increasing prices period :
  (1 <= period)%nat -> (period + 1 <= length prices)%nat -> increasing prices ->
  calculateRSI (map Fin prices) period = #100.
Proof.
  intros Hp Hlen Hinc. unfold calculateRSI. rewrite length_map.
  destruct (Nat.ltb_spec (length prices) (period + 1)); [lia|].
  unfold gains_losses.
  destruct (gains_losses_step_pos
              (slice_last period (changes_of (map Fin prices))) #0 #0)
    as (g & ->); [apply slice_last_Forall, changes_of_increasing, Hinc|].
  cbn [fst snd]. unfold of_nat.
  pose proof (of_nat_pos period Hp) as HP.
  rewrite (div_Fin 0) by lra.
  assert (E : seq #(0 / inject_Z (Z.of_nat period)) #0 = true).
  { apply seq_Fin. unfold Qdiv. lra. }
  now rewrite E.
Qed.

Lemma calculateRSI_same (data : list num) period :
  Preprocessing.calculateRSI data period = calculateRSI data period.
Proof. reflexivity. Qed.

(** C5.  On a series of prices the RSI (either copy of [calculateRSI], any
    period of at least 1) lies in [[0,100]]; it is the sentinel 50 when the
    series has fewer than [period + 1] prices, and exactly 100 when the
    series has at least [period + 1] prices and is strictly increasing. *)
Theorem rsi_range_and_sentinels (prices : list Q) (period : nat) :
  (1 <= period)%nat ->
  let data := map Fin prices in
  Preprocessing.calculateRSI data period = calculateRSI data period /\
  within 0 100 (calculateRSI data period) /\
  ((length prices < period + 1)%nat -> calculateRSI data period = #50) /\
  ((period + 1 <= length prices)%nat -> increasing prices ->
     calculateRSI data period = #100).
Proof.
  intros Hp data. split; [reflexivity|].
  split; [apply calculateRSI_within; assumption|]. split.
  - intros H. apply calculateRSI_short. unfold data. rewrite length_map. exact H.
  - intros Hlen Hinc. apply calculateRSI_increasing; assumption.
Qed.

End RSIFacts.

Lemma rsi_range_and_sentinels_witness :
  let prices := [1; 2; 3; 4; 5; 6; 7; 8; 9; 10; 11; 12; 13; 14; 15; 16]%Q in
  (1 <= 14)%nat /\ Series.increasing prices /\
  Indicators.calculateRSI (map Fin prices) 14 = #100 /\
  within 0 100 (Indicators.calculateRSI (map Fin prices) 14).
Proof.
  intros prices.
  assert (Hp : (1 <= 14)%nat) by lia.
  assert (Hinc : Series.increasing prices) by (repeat split; reflexivity).
  destruct (rsi_range_and_sentinels prices 14 Hp) as (_ & Hw & _ & H100).
  split; [exact Hp|]. split; [exact Hinc|]. split; [|exact Hw].
  apply H100; [cbn; lia | exact Hinc].
Defined.

(** ** The aggregator's indicator set *)

Section IndicatorFacts.
Import Types Arr Indicators.
Variable sqrt : num -> num.

(** C4.  The aggregator's indicator computation returns [null] on fewer than
    26 bars; on 26 bars or more it returns an indicator set, whose [sma50] is
    0 below 50 bars and whose [sma200] is 0 below 200 bars (and which are the
    50- and 200-bar averages of the closes otherwise). *)
Theorem indicators_by_length (data : list HistoricalDataPoint) :
  ((length data < 26)%nat -> calculateTechnicalIndicators sqrt data = None) /\
  ((26 <= length data)%nat ->
     exists ind,
       calculateTechnicalIndicators sqrt data = Some ind /\
       ((length data < 50)%nat -> sma50 ind = #0) /\
       ((length data < 200)%nat -> sma200 ind = #0) /\
       ((50 <= length data)%nat ->
          sma50 ind = calculateSMA (map close_of data) 50) /\
       ((200 <= length data)%nat ->
          sma200 ind = calculateSMA (map close_of data) 200)).
Proof.
  unfold calculateTechnicalIndicators.
  destruct (Nat.ltb_spec (length data) 26) as [Hlt | Hge].
  - split; [reflexivity | lia].
  - split; [lia|]. intros _. eexists. split; [reflexivity|]. cbn [sma50 sma200].
    destruct (Nat.leb_spec 50 (length data)), (Nat.leb_spec 200 (length data));
      repeat split; intros; first [reflexivity | lia].
Qed.

End IndicatorFacts.

Lemma indicators_by_length_witness :
  let bar :=
    {| Types.date := 0; Types.open := #10; Types.high := #12; Types.low := #9;
       Types.close := #11; Types.volume := #1000; Types.adjClose := None |} in
  (length (repeat bar 10) < 26)%nat /\
  Indicators.calculateTechnicalIndicators (fun x => x) (repeat bar 10) = None /\
  (26 <= length (repeat bar 30))%nat /\
  exists ind,
    Indicators.calculateTechnicalIndicators (fun x => x) (repeat bar 30) = Some ind /\
    Types.sma50 ind = #0 /\ Types.sma200 ind = #0.
Proof.
  intros bar.
  assert (H10 : (length (repeat bar 10) < 26)%nat) by (cbn; lia).
  assert (H30 : (26 <= length (repeat bar 30))%nat) by (cbn; lia).
  split; [exact H10|].
  split; [exact (proj1 (indicators_by_length (fun x => x) (repeat bar 10)) H10)|].
  split; [exact H30|].
  destruct (proj2 (indicators_by_length (fun x => x) (repeat bar 30)) H30)
    as (ind & Hind & H50 & H200 & _).
  exists ind. split; [exact Hind|].
  split; [apply H50 | apply H200]; cbn; lia.
Defined.

(** ** The model loader *)

Section LoaderFacts.
Import Str ModelLoader.
Implicit Types (st : Loader) (e : Event) (evs : list Event).

Lemma loadModels_cases symbol st :
  let upper := toUpperCase symbol in
  (exists m, modelCache st !! upper = Some m /\ loadModels symbol st = (Returned m, st)) \/
  (exists pid, modelCache st !! upper = None /\ loadingPromises st !! upper = Some pid /\
               loadModels symbol st = (Awaits pid, st)) \/
  (modelCache st !! upper = None /\ loadingPromises st !! upper = None /\
   (loadModels symbol st).1 = Awaits (next_promise st) /\
   modelCache (loadModels symbol st).2 = modelCache st /\
   loadingPromises (loadModels symbol st).2 = <[upper := next_promise st]> (loadingPromises st) /\
   resolved (loadModels symbol st).2 = resolved st /\
   suspended (loadModels symbol st).2 = <[next_promise st := upper]> (suspended st) /\
   next_promise (loadModels symbol st).2 = S (next_promise st) /\
   fetched (loadModels symbol st).2 = fetched st ++ artifact_paths (toLowerCase symbol)).
Proof.
  intros upper. unfold loadModels. fold upper.
  destruct (modelCache st !! upper) as [m|] eqn:Ec; [left; eauto|].
  destruct (loadingPromises st !! upper) as [pid|] eqn:El; [right; left; eauto|].
  right; right. cbn. repeat split; reflexivity.
Qed.

Lemma consistent_init : consistent init.
Proof.
  repeat split; intros *; cbn; rewrite ?lookup_empty; try discriminate; try reflexivity.
Qed.

Lemma consistent_step st e st' : consistent st -> step st e st' -> consistent st'.
Proof.
  intros (Hs & Hn & Hr) Hstep.
  destruct Hstep as [symbol st|pid s st Hlt Hnone|pid upper result st Hsus Hres|symbol st].
  - destruct (loadModels_cases symbol st)
      as [(m & _ & ->) | [(pid & _ & _ & ->) | (Hc & Hl & _ & _ & El & Er & Es & En & _)]];
      [repeat split; assumption || apply Hs | repeat split; assumption || apply Hs |].
    unfold consistent. rewrite Es, El, Er, En. split; [|split].
    + intros pid upper.
      destruct (decide (next_promise st = pid)) as [<-|Hne];
        destruct (decide (toUpperCase symbol = upper)) as [<-|Hne'];
        rewrite ?lookup_insert_eq, ?lookup_insert_ne by assumption.
      * split; congruence.
      * split; [congruence|]. intros H. apply Hs, Hn in H. lia.
      * split; [|congruence]. intros H. apply Hs in H. congruence.
      * apply Hs.
    + intros pid upper.
      destruct (decide (next_promise st = pid)) as [<-|Hne]; [lia|].
      rewrite lookup_insert_ne by assumption. intros H. apply Hn in H. lia.
    + intros pid Hle. apply Hr. lia.
  - split; [exact Hs|]. split; [exact Hn|]. intros p Hle. cbn in *.
    rewrite lookup_insert_ne by lia. apply Hr, Hle.
  - split; [|split; [|exact Hr]]; cbn.
    + intros p u.
      destruct (decide (pid = p)) as [<-|Hne]; destruct (decide (upper = u)) as [<-|Hne'];
        rewrite ?lookup_delete_eq, ?lookup_delete_ne by assumption.
      * split; congruence.
      * split; [discriminate|]. intros H. apply Hs in H. congruence.
      * split; [|discriminate]. intros H. apply Hs in H, Hsus. congruence.
      * apply Hs.
    + intros p u. destruct (decide (pid = p)) as [<-|Hne];
        rewrite ?lookup_delete_eq, ?lookup_delete_ne by assumption; [discriminate | apply Hn].
  - unfold consistent, clearCache.
    destruct symbol as [s|]; [destruct (String.eqb s "")|]; cbn; auto.
Qed.

Lemma consistent_steps st evs st' : consistent st -> steps st evs st' -> consistent st'.
Proof. intros H Hs. induction Hs; eauto using consistent_step. Qed.

Lemma reachable_consistent st : reachable st -> consistent st.
Proof. intros [evs H]. eapply consistent_steps; [apply consistent_init | exact H]. Qed.

Lemma in_flight_step upper pid st e st' :
  in_flight upper pid st -> step st e st' -> settles pid e = false ->
  in_flight upper pid st'.
Proof.
  intros (Hl & Hc & Hr & Hs) Hstep Hne.
  destruct Hstep as [symbol st|p s st Hlt Hnone|p u result st Hsus Hres|symbol st].
  - destruct (loadModels_cases symbol st)
      as [(m & _ & ->) | [(p & _ & _ & ->) | (Hc' & Hl' & _ & Ec & El & Er & Es & _)]];
      [repeat split; assumption | repeat split; assumption |].
    assert (Hu : toUpperCase symbol <> upper) by congruence.
    unfold in_flight. rewrite Ec, El, Er, Es.
    rewrite lookup_insert_ne by assumption. repeat split; try assumption.
    intros pid'. destruct (decide (next_promise st = pid')) as [<-|Hn].
    + rewrite lookup_insert_eq. congruence.
    + rewrite lookup_insert_ne by assumption. apply Hs.
  - cbn in Hne. apply Nat.eqb_neq in Hne.
    unfold in_flight. cbn. rewrite lookup_insert_ne by assumption.
    repeat split; assumption.
  - assert (Hu : u <> upper).
    { intros ->. apply Hs in Hsus. congruence. }
    unfold in_flight. cbn.
    rewrite lookup_delete_ne, lookup_insert_ne by assumption.
    repeat split; try assumption.
    intros pid'. destruct (decide (p = pid')) as [<-|Hn].
    + rewrite lookup_delete_eq. discriminate.
    + rewrite lookup_delete_ne by assumption. apply Hs.
  - unfold in_flight, clearCache.
    destruct symbol as [s|]; [destruct (String.eqb s "")|]; cbn;
      repeat split; try assumption; try apply lookup_empty.
    destruct (decide (toUpperCase s = upper)) as [<-|Hn];
      [apply lookup_delete_eq | now rewrite lookup_delete_ne].
Qed.

Lemma in_flight_steps upper pid st evs st' :
  in_flight upper pid st -> steps st evs st' ->
  Forall (fun e => settles pid e = false) evs ->
  in_flight upper pid st'.
Proof.
  intros H Hsteps. induction Hsteps as [|st e st' evs st'' Hstep _ IH]; intros Hall.
  - exact H.
  - inversion Hall; subst. eauto using in_flight_step.
Qed.

Lemma in_flight_calls upper pid st evs st' :
  in_flight upper pid st -> steps st evs st' ->
  Forall (fun e => calls upper e = true) evs -> st' = st.
Proof.
  intros H Hsteps. induction Hsteps as [|st e st' evs st'' Hstep _ IH]; intros Hall.
  - reflexivity.
  - inversion Hall as [|? ? He Hrest]; subst.
    destruct Hstep as [symbol st| | |]; try discriminate He.
    cbn in He. apply String.eqb_eq in He.
    destruct H as (Hl & Hc & Hr & Hs).
    assert (E : (loadModels symbol st).2 = st).
    { destruct (loadModels_cases symbol st)
        as [(m & Hm & ->) | [(p & _ & _ & ->) | (_ & Hn & _)]];
        [reflexivity | reflexivity | congruence]. }
    rewrite E in *. apply IH; [repeat split; assumption | assumption].
Qed.

(** C8.  From a reachable state in which a key is neither cached nor being
    loaded, a call of [loadModels] starts one load: it requests the four
    artifacts once and registers the promise.  Whatever happens before that
    promise resolves, a second call for the same key is handed the same
    promise and requests nothing (and as long as only calls for that key
    arrive the state does not change at all); once the promise resolves both
    callers have received the same object, the one built by the load. *)
Theorem concurrent_loads_share_one_load st symbol symbol' evs st2 :
  reachable st ->
  modelCache st !! toUpperCase symbol = None ->
  loadingPromises st !! toUpperCase symbol = None ->
  toUpperCase symbol' = toUpperCase symbol ->
  steps (loadModels symbol st).2 evs st2 ->
  Forall (fun e => settles (next_promise st) e = false) evs ->
  let pid := next_promise st in
  let st1 := (loadModels symbol st).2 in
  loadModels symbol st = (Awaits pid, st1) /\
  fetched st1 = fetched st ++ artifact_paths (toLowerCase symbol) /\
  loadModels symbol' st2 = (Awaits pid, st2) /\
  (Forall (fun e => calls (toUpperCase symbol) e = true) evs -> st2 = st1) /\
  (forall s,
     received (Awaits pid) (settle pid s st2) = Some (loadModelsInternal_result s) /\
     received (loadModels symbol st).1 (settle pid s st2)
     = received (loadModels symbol' st2).1 (settle pid s st2)).
Proof.
  intros Hreach Hc Hl Heq Hsteps Hall pid st1.
  destruct (reachable_consistent st Hreach) as (Hsus & _ & Hres).
  destruct (loadModels_cases symbol st)
    as [(m & Hm & _) | [(p & _ & Hp & _) | (_ & _ & Eo & Ec & El & Er & Es & _ & Ef)]];
    [congruence | congruence |].
  assert (Hfl : in_flight (toUpperCase symbol) pid st1).
  { unfold in_flight, st1. rewrite Ec, El, Er, Es, lookup_insert_eq.
    repeat split; [assumption | apply Hres; lia |].
    intros pid'. destruct (decide (pid = pid')) as [<-|Hn]; [reflexivity|].
    unfold pid in Hn. rewrite lookup_insert_ne by assumption.
    intros H. apply Hsus in H. congruence. }
  pose proof (in_flight_steps _ _ _ _ _ Hfl Hsteps Hall) as (Hl2 & Hc2 & _).
  assert (E2 : loadModels symbol' st2 = (Awaits pid, st2)).
  { destruct (loadModels_cases symbol' st2)
      as [(m & Hm & _) | [(p & _ & Hp & ->) | (_ & Hn & _)]]; congruence. }
  split; [rewrite (surjective_pairing (loadModels symbol st)), Eo; reflexivity|].
  split; [exact Ef|]. split; [exact E2|].
  split; [intros Hcalls; eapply in_flight_calls; eassumption|].
  intros s. rewrite E2, Eo. cbn [fst received settle resolved].
  split; [apply lookup_insert_eq | reflexivity].
Qed.

Lemma settled_in_cache_step upper result st e st' :
  settled_in_cache upper result st -> step st e st' -> evicts upper e = false ->
  settled_in_cache upper result st'.
Proof.
  intros (Hc & Hs) Hstep Hne.
  destruct Hstep as [symbol st|p s st Hlt Hnone|p u r st Hsus Hres|symbol st].
  - destruct (loadModels_cases symbol st)
      as [(m & _ & ->) | [(p & _ & _ & ->) | (Hc' & _ & _ & Ec & _ & _ & Es & _)]];
      [split; assumption | split; assumption |].
    assert (Hu : toUpperCase symbol <> upper) by congruence.
    unfold settled_in_cache. rewrite Ec, Es. split; [assumption|].
    intros pid. destruct (decide (next_promise st = pid)) as [<-|Hn].
    + rewrite lookup_insert_eq. congruence.
    + rewrite lookup_insert_ne by assumption. apply Hs.
  - split; assumption.
  - assert (Hu : u <> upper) by (intros ->; exact (Hs _ Hsus)).
    unfold settled_in_cache. cbn. rewrite lookup_insert_ne by assumption.
    split; [assumption|]. intros pid.
    destruct (decide (p = pid)) as [<-|Hn].
    + rewrite lookup_delete_eq. discriminate.
    + rewrite lookup_delete_ne by assumption. apply Hs.
  - unfold settled_in_cache, clearCache. cbn in Hne.
    destruct symbol as [s|]; [|discriminate].
    apply Bool.orb_false_iff in Hne as [Hne1 Hne2]. rewrite Hne1. cbn.
    apply String.eqb_neq in Hne2. rewrite lookup_delete_ne by assumption.
    split; assumption.
Qed.

Lemma settled_in_cache_steps upper result st evs st' :
  settled_in_cache upper result st -> steps st evs st' ->
  Forall (fun e => evicts upper e = false) evs ->
  settled_in_cache upper result st'.
Proof.
  intros H Hsteps. induction Hsteps as [|st e st' evs st'' Hstep _ IH]; intros Hall.
  - exact H.
  - inversion Hall; subst. eauto using settled_in_cache_step.
Qed.

(** C9.  Once the call that started a load has resumed with the result of
    the load, whatever that result is (all four slots may be [null]), the
    result stays in the cache through every execution that does not call
    [clearCache] for that key or for all keys: each call of [loadModels] for
    the key returns it at once and changes nothing, so nothing is fetched.
    After [clearCache] for the symbol the key is gone and the next call
    requests the four artifacts again. *)
Theorem completed_load_cached_until_cleared st pid upper result evs st2 :
  reachable st ->
  suspended st !! pid = Some upper ->
  resolved st !! pid = Some result ->
  steps (loadModels_resume pid upper result st).2 evs st2 ->
  Forall (fun e => evicts upper e = false) evs ->
  modelCache st2 !! upper = Some result /\
  (forall symbol,
     toUpperCase symbol = upper ->
     loadModels symbol st2 = (Returned result, st2) /\
     (symbol <> "" ->
      modelCache (clearCache (Some symbol) st2) !! upper = None /\
      fetched (loadModels symbol (clearCache (Some symbol) st2)).2
      = fetched st2 ++ artifact_paths (toLowerCase symbol))).
Proof.
  intros Hreach Hsus Hres Hsteps Hall.
  pose proof (reachable_consistent st Hreach) as Hcons.
  assert (Hcons1 : consistent (loadModels_resume pid upper result st).2).
  { eapply consistent_step; [exact Hcons|]. now apply step_resume. }
  pose proof (consistent_steps _ _ _ Hcons1 Hsteps) as (Hs2' & _).
  destruct Hcons as (Hs & _).
  assert (H1 : settled_in_cache upper result (loadModels_resume pid upper result st).2).
  { split; cbn; [apply lookup_insert_eq|]. intros p.
    destruct (decide (pid = p)) as [<-|Hn].
    - rewrite lookup_delete_eq. discriminate.
    - rewrite lookup_delete_ne by assumption. intros H.
      apply Hs in H. apply Hs in Hsus. congruence. }
  pose proof (settled_in_cache_steps _ _ _ _ _ H1 Hsteps Hall) as [Hc2 Hs2].
  split; [exact Hc2|]. intros symbol <-. split.
  - unfold loadModels. now rewrite Hc2.
  - intros Hne. apply String.eqb_neq in Hne.
    unfold clearCache. rewrite Hne. split; [cbn; apply lookup_delete_eq|].
    unfold loadModels. cbn [modelCache loadingPromises].
    rewrite lookup_delete_eq.
    destruct (loadingPromises st2 !! toUpperCase symbol) as [p|] eqn:El.
    + apply Hs2' in El. exfalso. exact (Hs2 _ El).
    + reflexivity.
Qed.

End LoaderFacts.

Lemma concurrent_loads_share_one_load_witness :
  let st1 := (ModelLoader.loadModels "AAPL" ModelLoader.init).2 in
  let st2 := (ModelLoader.loadModels "MSFT" st1).2 in
  ModelLoader.loadModels "AAPL" ModelLoader.init = (ModelLoader.Awaits 0, st1) /\
  ModelLoader.fetched st1
  = ["/models/aapl/lstm/model.json"; "/models/aapl/scaler_params.json";
     "/models/aapl/ensemble_config.json"; "/models/aapl/preprocessing_config.json"] /\
  ModelLoader.loadModels "aapl" st2 = (ModelLoader.Awaits 0, st2).
Proof.
  intros st1 st2.
  assert (Hreach : ModelLoader.reachable ModelLoader.init)
    by (exists []; apply ModelLoader.steps_nil).
  assert (Hsteps : ModelLoader.steps st1 [ModelLoader.Call "MSFT"] st2).
  { eapply ModelLoader.steps_cons;
      [apply ModelLoader.step_call | apply ModelLoader.steps_nil]. }
  assert (Hall : Forall (fun e => ModelLoader.settles 0 e = false) [ModelLoader.Call "MSFT"])
    by (repeat constructor).
  destruct (concurrent_loads_share_one_load ModelLoader.init "AAPL" "aapl"
              [ModelLoader.Call "MSFT"] st2 Hreach eq_refl eq_refl eq_refl Hsteps Hall)
    as (H1 & H2 & H3 & _).
  split; [exact H1|]. split; [exact H2 | exact H3].
Defined.

Lemma completed_load_cached_until_cleared_witness :
  let st := ModelLoader.settle 0 ModelLoader.all_rejected
              (ModelLoader.loadModels "AAPL" ModelLoader.init).2 in
  let failed := ModelLoader.loadModelsInternal_result ModelLoader.all_rejected in
  let st1 := (ModelLoader.loadModels_resume 0 "AAPL" failed st).2 in
  let st2 := (ModelLoader.loadModels "aapl" st1).2 in
  ModelLoader.lstmModel failed = None /\
  ModelLoader.scalerParams failed = None /\
  ModelLoader.ensembleConfig failed = None /\
  ModelLoader.modelConfig failed = None /\
  ModelLoader.loadModels "AAPL" st2 = (ModelLoader.Returned failed, st2) /\
  length (ModelLoader.fetched st2) = 4%nat.
Proof.
  intros st failed st1 st2.
  assert (Hreach : ModelLoader.reachable st).
  { exists [ModelLoader.Call "AAPL"; ModelLoader.Settle 0 ModelLoader.all_rejected].
    eapply ModelLoader.steps_cons; [apply ModelLoader.step_call|].
    eapply ModelLoader.steps_cons; [|apply ModelLoader.steps_nil].
    apply ModelLoader.step_settle; [vm_compute; constructor | reflexivity]. }
  assert (Hsteps : ModelLoader.steps st1 [ModelLoader.Call "aapl"] st2).
  { eapply ModelLoader.steps_cons;
      [apply ModelLoader.step_call | apply ModelLoader.steps_nil]. }
  assert (Hall : Forall (fun e => ModelLoader.evicts "AAPL" e = false) [ModelLoader.Call "aapl"])
    by (repeat constructor).
  destruct (completed_load_cached_until_cleared st 0 "AAPL" failed
              [ModelLoader.Call "aapl"] st2 Hreach eq_refl eq_refl Hsteps Hall)
    as (_ & H).
  do 4 (split; [reflexivity|]).
  split; [exact (proj1 (H "AAPL" eq_refl)) | reflexivity].
Defined.

(** ** The aggregator and its cache *)

Section AggregatorFacts.
Import Str Types Aggregator.
Implicit Types (c : Cache.DataCache Value) (key : string).

Lemma get_None_lookup now key c :
  (Cache.get now key c).1 = None ->
  Cache.cache (Cache.get now key c).2 !! key = None.
Proof.
  unfold Cache.get. destruct (Cache.cache c !! key) as [e|] eqn:E; [|intros _; exact E].
  destruct (_ >? _)%Z; [intros _; apply lookup_delete_eq | discriminate].
Qed.

Lemma get_Some_lookup now key c v :
  (Cache.get now key c).1 = Some v ->
  (Cache.get now key c).2 = c /\
  exists e, Cache.cache c !! key = Some e /\ Cache.data e = v.
Proof.
  unfold Cache.get. destruct (Cache.cache c !! key) as [e|] eqn:E; [|discriminate].
  destruct (_ >? _)%Z; [discriminate|]. intros [= <-]. eauto.
Qed.

Lemma no_empty_get now key c : no_empty c -> no_empty (Cache.get now key c).2.
Proof.
  intros H. unfold Cache.get. destruct (Cache.cache c !! key) as [e|] eqn:E; [|exact H].
  destruct (_ >? _)%Z; [|exact H].
  intros k e'. cbn. intros Hk. apply lookup_delete_Some in Hk as [_ Hk]. eauto.
Qed.

Lemma no_empty_set now key v ttl c :
  is_empty v = false -> no_empty c -> no_empty (Cache.set now key v ttl c).
Proof.
  intros Hv H k e. cbn. destruct (decide (key = k)) as [<-|Hne].
  - rewrite lookup_insert_eq. intros [= <-]. exact Hv.
  - rewrite lookup_insert_ne by assumption. apply H.
Qed.

Lemma run_timers_lookup now c key e :
  Cache.cache (Cache.run_timers now c) !! key = Some e -> Cache.cache c !! key = Some e.
Proof.
  unfold Cache.run_timers. cbn [Cache.cache].
  generalize (Cache.cache c). induction (Cache.timers c) as [|t ts IH]; intros m; cbn.
  - auto.
  - intros H. apply IH in H. destruct (_ <=? _)%Z; [|exact H].
    apply lookup_delete_Some in H as [_ H]. exact H.
Qed.

Lemma run_timers_lookup_None now c key :
  Cache.cache c !! key = None -> Cache.cache (Cache.run_timers now c) !! key = None.
Proof.
  intros H. destruct (Cache.cache (Cache.run_timers now c) !! key) eqn:E; [|reflexivity].
  apply run_timers_lookup in E. congruence.
Qed.

Lemma no_empty_run_timers now c : no_empty c -> no_empty (Cache.run_timers now c).
Proof. intros H k e Hk. apply run_timers_lookup in Hk. eauto. Qed.

Lemma length_pos_not_empty {A} (l : list A) : (0 <? length l)%nat = true -> l <> [].
Proof. destruct l; [discriminate | discriminate]. Qed.

Lemma no_empty_getQuote now later src symbol c :
  no_empty c -> no_empty (cache_after (getQuote now later src symbol c)).
Proof.
  intros H. unfold getQuote.
  pose proof (no_empty_get now (quote_key symbol) c H) as Hg.
  destruct (Cache.get now (quote_key symbol) c) as [[v|] c1]; cbn in *; [exact Hg|].
  destruct (yahoo_getQuote src symbol) as [q|]; cbn.
  - now apply no_empty_set.
  - destruct (alpha_getQuote src symbol); cbn; [now apply no_empty_set | exact Hg].
Qed.

Lemma no_empty_getHistoricalData now later src symbol period c :
  no_empty c -> no_empty (cache_after (getHistoricalData now later src symbol period c)).
Proof.
  intros H. unfold getHistoricalData.
  pose proof (no_empty_get now (historical_key symbol period) c H) as Hg.
  destruct (Cache.get now (historical_key symbol period) c) as [[v|] c1]; cbn in *; [exact Hg|].
  destruct (_ && _); cbn.
  - destruct (filter _ _) as [|d ds] eqn:E; cbn; [exact Hg | now apply no_empty_set].
  - destruct (yahoo_getHistoricalData src symbol period) as [|d ds]; cbn;
      [exact Hg | now apply no_empty_set].
Qed.

Lemma no_empty_searchStocks now later src query c :
  no_empty c -> no_empty (cache_after (searchStocks now later src query c)).
Proof.
  intros H. unfold searchStocks. destruct (_ <? _)%nat; [exact H|].
  pose proof (no_empty_get now (search_key query) c H) as Hg.
  destruct (Cache.get now (search_key query) c) as [[v|] c1]; cbn in *; [exact Hg|].
  destruct (yahoo_searchStocks src query) as [|d ds]; cbn;
    [exact Hg | now apply no_empty_set].
Qed.

Lemma no_empty_exec c op : no_empty c -> no_empty (exec c op).
Proof.
  destruct op; cbn;
    auto using no_empty_getQuote, no_empty_getHistoricalData,
               no_empty_searchStocks, no_empty_run_timers.
Qed.

Lemma no_empty_run ops : no_empty (run ops).
Proof.
  unfold run. assert (H0 : no_empty (@Cache.empty Value)).
  { intros k e. cbn. rewrite lookup_empty. discriminate. }
  revert H0. generalize (@Cache.empty Value).
  induction ops as [|op ops IH]; intros c Hc; cbn; [exact Hc|].
  apply IH, no_empty_exec, Hc.
Qed.

Lemma get_miss now key c :
  Cache.cache c !! key = None -> Cache.get now key c = (None, c).
Proof. intros H. unfold Cache.get. now rewrite H. Qed.

Lemma getQuote_absent now later src symbol c :
  no_empty c ->
  is_absent (returned (getQuote now later src symbol c)) = true ->
  Cache.cache (cache_after (getQuote now later src symbol c)) !! quote_key symbol = None.
Proof.
  intros H. unfold getQuote.
  pose proof (get_None_lookup now (quote_key symbol) c) as Hn.
  pose proof (get_Some_lookup now (quote_key symbol) c) as Hs.
  destruct (Cache.get now (quote_key symbol) c) as [[v|] c1]; cbn in *.
  - destruct (Hs v eq_refl) as (_ & e & He & <-). rewrite (H _ _ He). discriminate.
  - destruct (yahoo_getQuote src symbol) as [q|]; cbn; [discriminate|].
    destruct (alpha_getQuote src symbol); cbn; [discriminate | auto].
Qed.

Lemma getQuote_miss now later src symbol c :
  Cache.cache c !! quote_key symbol = None ->
  head (queries (getQuote now later src symbol c)) = Some (YahooQuote symbol).
Proof.
  intros H. unfold getQuote. rewrite (get_miss _ _ _ H).
  destruct (yahoo_getQuote src symbol); reflexivity.
Qed.

Lemma getHistoricalData_absent now later src symbol period c :
  no_empty c ->
  is_absent (returned (getHistoricalData now later src symbol period c)) = true ->
  Cache.cache (cache_after (getHistoricalData now later src symbol period c))
    !! historical_key symbol period = None.
Proof.
  intros H. unfold getHistoricalData.
  pose proof (get_None_lookup now (historical_key symbol period) c) as Hn.
  pose proof (get_Some_lookup now (historical_key symbol period) c) as Hs.
  destruct (Cache.get now (historical_key symbol period) c) as [[v|] c1]; cbn in *.
  - destruct (Hs v eq_refl) as (_ & e & He & <-). rewrite (H _ _ He). discriminate.
  - destruct (_ && _); cbn.
    + destruct (filter _ _) as [|d ds]; cbn; [auto | discriminate].
    + destruct (yahoo_getHistoricalData src symbol period) as [|d ds]; cbn;
        [auto | discriminate].
Qed.

Lemma getHistoricalData_miss now later src symbol period c :
  Cache.cache c !! historical_key symbol period = None ->
  head (queries (getHistoricalData now later src symbol period c))
  = Some (YahooHistory symbol period).
Proof.
  intros H. unfold getHistoricalData. rewrite (get_miss _ _ _ H).
  destruct (_ && _); reflexivity.
Qed.

Lemma searchStocks_absent now later src query c :
  no_empty c -> query <> "" ->
  is_absent (returned (searchStocks now later src query c)) = true ->
  Cache.cache (cache_after (searchStocks now later src query c)) !! search_key query = None.
Proof.
  intros H Hq. unfold searchStocks.
  destruct query as [|a query]; [congruence|]. cbn [String.length Nat.ltb Nat.leb].
  set (q := String a query).
  pose proof (get_None_lookup now (search_key q) c) as Hn.
  pose proof (get_Some_lookup now (search_key q) c) as Hs.
  destruct (Cache.get now (search_key q) c) as [[v|] c1]; cbn in *.
  - destruct (Hs v eq_refl) as (_ & e & He & <-). rewrite (H _ _ He). discriminate.
  - destruct (yahoo_searchStocks src q) as [|d ds]; cbn; [auto | discriminate].
Qed.

Lemma searchStocks_miss now later src query c :
  query <> "" ->
  Cache.cache c !! search_key query = None ->
  queries (searchStocks now later src query c) = [YahooSearch query].
Proof.
  intros Hq H. unfold searchStocks.
  destruct query as [|a query]; [congruence|]. cbn [String.length Nat.ltb Nat.leb].
  rewrite (get_miss _ _ _ H). reflexivity.
Qed.

(** C10.  In every state the aggregator's cache can be in, no entry holds an
    empty array (and none holds [null]: an entry is only ever written with a
    quote or a non-empty array).  When [getQuote], [getHistoricalData] or
    [searchStocks] (on a non-empty query) returns [null] or an empty array,
    the cache has no entry under the key of the call afterwards, so that the
    next call for the key, whenever it comes and whichever scheduled
    deletions have run by then, asks Yahoo again. *)
Theorem absent_results_are_not_cached (ops : list Op) :
  let c := run ops in
  no_empty c /\
  (forall now later src symbol,
     let r := getQuote now later src symbol c in
     no_empty (cache_after r) /\
     (is_absent (returned r) = true ->
      Cache.cache (cache_after r) !! quote_key symbol = None /\
      forall t now' later' src',
        head (queries (getQuote now' later' src' symbol
                         (Cache.run_timers t (cache_after r))))
        = Some (YahooQuote symbol))) /\
  (forall now later src symbol period,
     let r := getHistoricalData now later src symbol period c in
     no_empty (cache_after r) /\
     (is_absent (returned r) = true ->
      Cache.cache (cache_after r) !! historical_key symbol period = None /\
      forall t now' later' src',
        head (queries (getHistoricalData now' later' src' symbol period
                         (Cache.run_timers t (cache_after r))))
        = Some (YahooHistory symbol period))) /\
  (forall now later src query,
     let r := searchStocks now later src query c in
     no_empty (cache_after r) /\
     (query <> "" -> is_absent (returned r) = true ->
      Cache.cache (cache_after r) !! search_key query = None /\
      forall t now' later' src',
        queries (searchStocks now' later' src' query
                   (Cache.run_timers t (cache_after r)))
        = [YahooSearch query])).
Proof.
  intros c. pose proof (no_empty_run ops) as Hc. fold c in Hc.
  split; [exact Hc|]. split; [|split].
  - intros now later src symbol r. split; [now apply no_empty_getQuote|].
    intros Habs. pose proof (getQuote_absent _ _ _ _ _ Hc Habs) as Hk.
    split; [exact Hk|]. intros t now' later' src'.
    apply getQuote_miss, run_timers_lookup_None, Hk.
  - intros now later src symbol period r.
    split; [now apply no_empty_getHistoricalData|].
    intros Habs. pose proof (getHistoricalData_absent _ _ _ _ _ _ Hc Habs) as Hk.
    split; [exact Hk|]. intros t now' later' src'.
    apply getHistoricalData_miss, run_timers_lookup_None, Hk.
  - intros now later src query r. split; [now apply no_empty_searchStocks|].
    intros Hq Habs. pose proof (searchStocks_absent _ _ _ _ _ Hc Hq Habs) as Hk.
    split; [exact Hk|]. intros t now' later' src'.
    apply searchStocks_miss; [exact Hq | apply run_timers_lookup_None, Hk].
Qed.

End AggregatorFacts.

Lemma absent_results_are_not_cached_witness :
  let bar :=
    {| Types.date := 5; Types.open := JS.Fin 10; Types.high := JS.Fin 12;
       Types.low := JS.Fin 9; Types.close := JS.Fin 11;
       Types.volume := JS.Fin 1000; Types.adjClose := None |} in
  let up :=
    {| Aggregator.yahoo_getQuote := fun _ => None;
       Aggregator.alpha_getQuote := fun _ => None;
       Aggregator.yahoo_getHistoricalData := fun _ _ => [bar];
       Aggregator.alpha_getHistoricalData := fun _ _ => [];
       Aggregator.yahoo_searchStocks := fun _ => [] |} in
  let failing :=
    {| Aggregator.yahoo_getQuote := fun _ => None;
       Aggregator.alpha_getQuote := fun _ => None;
       Aggregator.yahoo_getHistoricalData := fun _ _ => [];
       Aggregator.alpha_getHistoricalData := fun _ _ => [];
       Aggregator.yahoo_searchStocks := fun _ => [] |} in
  let ops := [Aggregator.GetHistoricalData 0 10 up "AAPL" Aggregator.P1y] in
  let r := Aggregator.getHistoricalData 100000 100010 failing "AAPL" Aggregator.P1y
             (Aggregator.run ops) in
  Aggregator.is_absent (Aggregator.returned r) = true /\
  Cache.cache (Aggregator.cache_after r) !! "historical:AAPL:1y" = None /\
  head (Aggregator.queries
          (Aggregator.getHistoricalData 100020 100030 failing "AAPL" Aggregator.P1y
             (Cache.run_timers 100015 (Aggregator.cache_after r))))
  = Some (Aggregator.YahooHistory "AAPL" Aggregator.P1y).
Proof.
  intros bar up failing ops r.
  assert (Habs : Aggregator.is_absent (Aggregator.returned r) = true) by reflexivity.
  destruct (absent_results_are_not_cached ops) as (_ & _ & Hh & _).
  destruct (Hh 100000%Z 100010%Z failing "AAPL" Aggregator.P1y) as (_ & Hr).
  destruct (Hr Habs) as (Hk & Hnext).
  split; [exact Habs|]. split; [exact Hk|].
  exact (Hnext 100015%Z 100020%Z 100030%Z failing).
Defined.

(** ** Request validation *)

Section ValidationFacts.
Import Str Validation.

Lemma toUpperCase_length s : String.length (toUpperCase s) = String.length s.
Proof. induction s as [|c s IH]; cbn; [reflexivity | now rewrite IH]. Qed.

Lemma symbol_char_not_space c : symbol_char c = true -> is_space c = false.
Proof.
  unfold symbol_char, is_space. generalize (nat_of_ascii c). intros n H.
  destruct (Nat.leb_spec 9 n), (Nat.leb_spec n 13), (Nat.eqb_spec n 32);
    cbn; try reflexivity; exfalso;
    destruct (Nat.leb_spec 65 n), (Nat.leb_spec n 90), (Nat.leb_spec 48 n),
      (Nat.leb_spec n 57), (Nat.eqb_spec n 46), (Nat.eqb_spec n 45);
    cbn in H; try discriminate; lia.
Qed.

Lemma symbol_char_upper c : symbol_char c = true -> upper_ascii c = c.
Proof.
  unfold symbol_char, upper_ascii. generalize (nat_of_ascii c). intros n H.
  destruct (Nat.leb_spec 97 n), (Nat.leb_spec n 122); cbn; try reflexivity.
  exfalso.
  destruct (Nat.leb_spec 65 n), (Nat.leb_spec n 90), (Nat.leb_spec 48 n),
    (Nat.leb_spec n 57), (Nat.eqb_spec n 46), (Nat.eqb_spec n 45);
    cbn in H; try discriminate; lia.
Qed.

Lemma all_symbol_upper s : all_chars symbol_char s = true -> toUpperCase s = s.
Proof.
  induction s as [|c s IH]; cbn; [reflexivity|].
  intros H. apply andb_prop in H as [Hc Hs].
  now rewrite (symbol_char_upper c Hc), (IH Hs).
Qed.

Lemma all_symbol_trim_end s : all_chars symbol_char s = true -> trim_end s = s.
Proof.
  induction s as [|c s IH]; cbn; [reflexivity|].
  intros H. apply andb_prop in H as [Hc Hs]. rewrite (IH Hs).
  destruct s; [now rewrite (symbol_char_not_space c Hc) | reflexivity].
Qed.

Lemma all_symbol_trim s : all_chars symbol_char s = true -> trim s = s.
Proof.
  intros H. unfold trim. destruct s as [|c s]; [reflexivity|].
  cbn [trim_start]. pose proof H as H'. cbn in H'. apply andb_prop in H' as [Hc _].
  rewrite (symbol_char_not_space c Hc). now apply all_symbol_trim_end.
Qed.

(** X1.  A symbol that [validateSymbol] accepts is sanitized to between 1
    and 10 characters of [[A-Z0-9.-]]; the sanitized symbol is a fixed point
    of [sanitizeSymbol] and is itself accepted. *)
Theorem validated_symbol_is_canonical (symbol : string) :
  valid (validateSymbol (Some symbol)) = true ->
  let clean := sanitizeSymbol symbol in
  (1 <= String.length clean <= 10)%nat /\
  all_chars symbol_char clean = true /\
  sanitizeSymbol clean = clean /\
  validateSymbol (Some clean) = accepted.
Proof.
  unfold validateSymbol, sanitizeSymbol.
  destruct (String.eqb symbol ""); [discriminate|].
  set (clean := toUpperCase (trim symbol)).
  destruct (Nat.eqb_spec (String.length clean) 0) as [|Hne]; [discriminate|].
  destruct (Nat.ltb_spec 10 (String.length clean)) as [|Hle]; [discriminate|].
  destruct (symbol_format clean) eqn:Hf; [|discriminate]. intros _. cbn zeta.
  unfold symbol_format in Hf. apply andb_prop in Hf as [Hne' Hall].
  assert (Hfix : toUpperCase (trim clean) = clean)
    by (rewrite (all_symbol_trim _ Hall); now apply all_symbol_upper).
  split; [lia|]. split; [exact Hall|]. split; [exact Hfix|].
  rewrite Hfix. apply Bool.negb_true_iff in Hne'. rewrite Hne'.
  destruct (Nat.eqb_spec (String.length clean) 0); [lia|].
  destruct (Nat.ltb_spec 10 (String.length clean)); [lia|].
  unfold symbol_format. rewrite Hne', Hall. reflexivity.
Qed.

Lemma includes_validPeriods s :
  includes validPeriods s = true ->
  exists P, s = Aggregator.period_name P.
Proof.
  unfold includes, validPeriods. cbn [existsb]. intros H.
  repeat (apply Bool.orb_true_iff in H as [H|H];
          [apply String.eqb_eq in H; subst;
           first [ now exists Aggregator.P1d | now exists Aggregator.P5d
                 | now exists Aggregator.P1mo | now exists Aggregator.P3mo
                 | now exists Aggregator.P6mo | now exists Aggregator.P1y
                 | now exists Aggregator.P2y | now exists Aggregator.P5y ]|]).
  discriminate.
Qed.

(** X2.  [sanitizePeriod] always returns the name of one of the eight
    periods of the aggregator, which [validatePeriod] accepts; it returns its
    argument when that is a non-empty string that [validatePeriod] accepted,
    and in particular every period name. *)
Theorem sanitized_period_is_known (period : option string) :
  (exists P, sanitizePeriod period = Aggregator.period_name P) /\
  validatePeriod (Some (sanitizePeriod period)) = accepted /\
  (forall s, period = Some s -> s <> "" ->
     valid (validatePeriod period) = true -> sanitizePeriod period = s) /\
  (forall P, sanitizePeriod (Some (Aggregator.period_name P)) = Aggregator.period_name P).
Proof.
  assert (H1 : exists P, sanitizePeriod period = Aggregator.period_name P).
  { unfold sanitizePeriod. destruct period as [s|]; [|now exists Aggregator.P1y].
    destruct (negb (s =? "")%string); cbn [andb]; [|now exists Aggregator.P1y].
    destruct (includes validPeriods s) eqn:E; [|now exists Aggregator.P1y].
    now apply includes_validPeriods. }
  split; [exact H1|]. split; [|split].
  - destruct H1 as [P ->]. destruct P; reflexivity.
  - intros s -> Hne. unfold validatePeriod, sanitizePeriod.
    apply String.eqb_neq in Hne. rewrite Hne. cbn [negb andb].
    destruct (includes validPeriods s); [reflexivity | discriminate].
  - intros P. destruct P; reflexivity.
Qed.

End ValidationFacts.

Lemma validated_symbol_is_canonical_witness :
  Validation.valid (Validation.validateSymbol (Some " brk.b ")) = true /\
  Validation.sanitizeSymbol " brk.b " = "BRK.B" /\
  Validation.sanitizeSymbol "BRK.B" = "BRK.B".
Proof.
  assert (H : Validation.valid (Validation.validateSymbol (Some " brk.b ")) = true)
    by reflexivity.
  destruct (validated_symbol_is_canonical " brk.b " H) as (_ & _ & Hfix & _).
  split; [exact H|]. split; [reflexivity | exact Hfix].
Defined.

Lemma sanitized_period_is_known_witness :
  Validation.sanitizePeriod (Some "6mo") = "6mo" /\
  Validation.sanitizePeriod (Some "10y") = "1y".
Proof.
  destruct (sanitized_period_is_known (Some "6mo")) as (_ & _ & H & _).
  split; [|reflexivity].
  apply (H "6mo" eq_refl); [discriminate | reflexivity].
Defined.

(** ** More on the cache *)

Section CacheMoreFacts.
Import Cache.
Context {T : Type}.
Implicit Types (c : DataCache T) (key : string) (v : T).

(** X3.  [get] serves a value only from an entry written at most 60000 ms
    before the read, and then leaves the cache as it is; when it serves
    nothing, the key is absent from the cache afterwards. *)
Theorem get_serves_only_fresh now key c :
  (forall v, (get now key c).1 = Some v ->
     exists entry,
       cache c !! key = Some entry /\ data entry = v /\
       (now - timestamp entry <= defaultTTL)%Z /\ (get now key c).2 = c) /\
  ((get now key c).1 = None -> cache (get now key c).2 !! key = None).
Proof.
  unfold get. destruct (cache c !! key) as [entry|] eqn:E.
  - destruct (Z.gtb_spec (now - timestamp entry) defaultTTL) as [Hgt|Hle]; cbn.
    + split; [discriminate | intros _; apply lookup_delete_eq].
    + split; [|discriminate]. intros v [= <-]. exists entry. auto.
  - cbn. split; [discriminate | auto].
Qed.

Lemma run_timers_app now (m : gmap string (CacheEntry T)) ts1 ts2 :
  foldl (fun m t => if (t.1 <=? now)%Z then delete t.2 m else m) m (ts1 ++ ts2)
  = foldl (fun m t => if (t.1 <=? now)%Z then delete t.2 m else m)
          (foldl (fun m t => if (t.1 <=? now)%Z then delete t.2 m else m) m ts1) ts2.
Proof. apply foldl_app. Qed.

(** X4.  An entry written with a nonzero TTL [d] is gone once the event
    loop has run the deletions due at a time [t0 + d] or later, whatever the
    cache held and had scheduled before; no deletion due by then is left
    pending. *)
Theorem timed_write_expires t0 t key v (d : Z) c :
  d <> 0%Z -> (t0 + d <= t)%Z ->
  cache (run_timers t (set t0 key v (Some d) c)) !! key = None /\
  Forall (fun tm => (t < tm.1)%Z) (timers (run_timers t (set t0 key v (Some d) c))).
Proof.
  intros Hd Ht. split.
  - unfold run_timers, set. cbn [cache timers].
    apply Z.eqb_neq in Hd. rewrite Hd, run_timers_app. cbn [foldl fst snd].
    destruct (Z.leb_spec (t0 + d) t); [apply lookup_delete_eq | lia].
  - unfold run_timers. cbn [timers]. apply list.Forall_forall. intros tm Hin.
    apply list_elem_of_filter in Hin as [Hlt _]. exact Hlt.
Qed.

End CacheMoreFacts.

Lemma get_serves_only_fresh_witness :
  (Cache.get 60000 "quote:AAPL" (Cache.set 0 "quote:AAPL" 7%nat None Cache.empty)).1
    = Some 7%nat /\
  (Cache.get 60001 "quote:AAPL" (Cache.set 0 "quote:AAPL" 7%nat None Cache.empty)).1
    = None /\
  exists entry : Cache.CacheEntry nat,
    Cache.data entry = 7%nat /\ (60000 - Cache.timestamp entry <= Cache.defaultTTL)%Z.
Proof.
  split; [reflexivity|]. split; [reflexivity|].
  destruct (proj1 (get_serves_only_fresh 60000 "quote:AAPL"
                     (Cache.set 0 "quote:AAPL" 7%nat None Cache.empty)) 7%nat eq_refl)
    as (entry & _ & Hd & Hage & _).
  exists entry. split; assumption.
Defined.

Lemma timed_write_expires_witness :
  Cache.cache (Cache.run_timers 1000
                 (Cache.set 0 "historical:AAPL:1d" 7%nat (Some 1000%Z) Cache.empty))
    !! "historical:AAPL:1d" = None.
Proof.
  refine (proj1 (timed_write_expires 0 1000 "historical:AAPL:1d" 7%nat 1000 Cache.empty _ _));
    [discriminate | reflexivity].
Defined.

(** ** More on the aggregator *)

Section AggregatorMoreFacts.
Import Str Types Aggregator Keys.
Implicit Types (c : Cache.DataCache Value) (key : string).

Lemma get_after_set now later key v ttl c :
  (now - later <= Cache.defaultTTL)%Z ->
  Cache.get now key (Cache.set later key v ttl c) = (Some v, Cache.set later key v ttl c).
Proof.
  intros H. unfold Cache.get. cbn [Cache.cache Cache.set].
  rewrite lookup_insert_eq. cbn [Cache.timestamp Cache.data].
  destruct (Z.gtb_spec (now - later) Cache.defaultTTL); [lia | reflexivity].
Qed.

Lemma getQuote_fetched now later src symbol c :
  let r := getQuote now later src symbol c in
  queries r <> [] -> is_absent (returned r) = false ->
  exists v ttl c1,
    returned r = Some v /\ cache_after r = Cache.set later (quote_key symbol) v ttl c1.
Proof.
  unfold getQuote.
  destruct (Cache.get now (quote_key symbol) c) as [[v|] c1]; cbn; [congruence|].
  destruct (yahoo_getQuote src symbol) as [q|]; cbn; [eauto 6|].
  destruct (alpha_getQuote src symbol) as [q|]; cbn; [eauto 6 | discriminate].
Qed.

Lemma getHistoricalData_fetched now later src symbol period c :
  let r := getHistoricalData now later src symbol period c in
  queries r <> [] -> is_absent (returned r) = false ->
  exists v ttl c1,
    returned r = Some v /\
    cache_after r = Cache.set later (historical_key symbol period) v ttl c1.
Proof.
  unfold getHistoricalData.
  destruct (Cache.get now (historical_key symbol period) c) as [[v|] c1]; cbn;
    [congruence|].
  destruct (_ && _); cbn.
  - destruct (filter _ _) as [|d ds]; cbn; [discriminate | eauto 6].
  - destruct (yahoo_getHistoricalData src symbol period) as [|d ds]; cbn;
      [discriminate | eauto 6].
Qed.

Lemma searchStocks_fetched now later src query c :
  let r := searchStocks now later src query c in
  queries r <> [] -> is_absent (returned r) = false ->
  (String.length query <? 1)%nat = false /\
  exists v ttl c1,
    returned r = Some v /\ cache_after r = Cache.set later (search_key query) v ttl c1.
Proof.
  unfold searchStocks.
  destruct (String.length query <? 1)%nat eqn:El; cbn; [congruence|].
  destruct (Cache.get now (search_key query) c) as [[v|] c1]; cbn; [congruence|].
  destruct (yahoo_searchStocks src query) as [|d ds]; cbn; [discriminate | eauto 7].
Qed.

(** X5.  A quote, a non-empty history or a non-empty search result that a
    call obtained from the source clients is served from the cache, with no
    request to a source and no change to the cache, by a following call for
    the same key that is entered at most 60000 ms after the write. *)
Theorem fetched_results_are_served_from_cache now later now' later' src src' c :
  (now' - later <= Cache.defaultTTL)%Z ->
  (forall symbol,
     let r := getQuote now later src symbol c in
     queries r <> [] -> is_absent (returned r) = false ->
     getQuote now' later' src' symbol (cache_after r)
     = {| returned := returned r; cache_after := cache_after r; queries := [] |}) /\
  (forall symbol period,
     let r := getHistoricalData now later src symbol period c in
     queries r <> [] -> is_absent (returned r) = false ->
     getHistoricalData now' later' src' symbol period (cache_after r)
     = {| returned := returned r; cache_after := cache_after r; queries := [] |}) /\
  (forall query,
     let r := searchStocks now later src query c in
     queries r <> [] -> is_absent (returned r) = false ->
     searchStocks now' later' src' query (cache_after r)
     = {| returned := returned r; cache_after := cache_after r; queries := [] |}).
Proof.
  intros Hage. split; [|split].
  - intros symbol r Hq Ha.
    destruct (getQuote_fetched now later src symbol c Hq Ha) as (v & ttl & c1 & Hr & Hc).
    fold r in Hr, Hc. rewrite Hr, Hc. unfold getQuote. now rewrite get_after_set.
  - intros symbol period r Hq Ha.
    destruct (getHistoricalData_fetched now later src symbol period c Hq Ha)
      as (v & ttl & c1 & Hr & Hc).
    fold r in Hr, Hc. rewrite Hr, Hc. unfold getHistoricalData.
    now rewrite get_after_set.
  - intros query r Hq Ha.
    destruct (searchStocks_fetched now later src query c Hq Ha)
      as (El & v & ttl & c1 & Hr & Hc).
    fold r in Hr, Hc. rewrite Hr, Hc. unfold searchStocks.
    rewrite El. now rewrite get_after_set.
Qed.

(** X6.  [getHistoricalData] asks Alpha Vantage only after Yahoo answered
    with no bar, and never for the intraday periods; it then asks for the
    compact output for 1mo and 3mo and for the full one otherwise, and
    returns exactly the bars of the answer that are dated at or after
    [periodDays] days before the answer was processed. *)
Theorem alpha_fallback_discipline now later src symbol period c outputSize :
  let r := getHistoricalData now later src symbol period c in
  In (AlphaHistory symbol outputSize) (queries r) ->
  yahoo_getHistoricalData src symbol period = [] /\
  is_intraday period = false /\
  outputSize = match period with P1mo | P3mo => compact | _ => full end /\
  exists bars,
    returned r = Some (VBars bars) /\
    bars = filter (fun d => (later - periodDays period * 86400000 <= date d)%Z)
                  (alpha_getHistoricalData src symbol outputSize) /\
    Forall (fun d => (later - periodDays period * 86400000 <= date d)%Z) bars.
Proof.
  unfold getHistoricalData.
  destruct (Cache.get now (historical_key symbol period) c) as [[v|] c1]; cbn;
    [tauto|].
  destruct (yahoo_getHistoricalData src symbol period) as [|b bs] eqn:Ey; cbn.
  - destruct (is_intraday period) eqn:Ei; cbn.
    + intros [H|[]]. discriminate.
    + intros [H|[H|[]]]; [discriminate|]. injection H as <-.
      split; [reflexivity|]. split; [reflexivity|]. split; [reflexivity|].
      replace (periodDays period * 24 * 60 * 60 * 1000)%Z
        with (periodDays period * 86400000)%Z by lia.
      eexists. split; [reflexivity|]. split; [reflexivity|].
      apply list.Forall_forall. intros d Hd.
      apply list_elem_of_filter in Hd as [Hd _]. exact Hd.
  - intros [H|[]]. discriminate.
Qed.

Lemma well_kinded_get now key c : well_kinded c -> well_kinded (Cache.get now key c).2.
Proof.
  intros H. unfold Cache.get. destruct (Cache.cache c !! key) as [e|] eqn:E; [|exact H].
  destruct (_ >? _)%Z; [|exact H].
  intros k e'. cbn. intros Hk. apply lookup_delete_Some in Hk as [_ Hk]. eauto.
Qed.

Lemma well_kinded_set now key v ttl c :
  key_holds key v = true -> well_kinded c -> well_kinded (Cache.set now key v ttl c).
Proof.
  intros Hv H k e. cbn. destruct (decide (key = k)) as [<-|Hne].
  - rewrite lookup_insert_eq. intros [= <-]. exact Hv.
  - rewrite lookup_insert_ne by assumption. apply H.
Qed.

Lemma well_kinded_exec c op : well_kinded c -> well_kinded (exec c op).
Proof.
  intros H. destruct op as [now later src symbol|now later src symbol period
                            |now later src query|now]; cbn.
  - unfold getQuote. pose proof (well_kinded_get now (quote_key symbol) c H) as Hg.
    destruct (Cache.get now (quote_key symbol) c) as [[v|] c1]; cbn in *; [exact Hg|].
    destruct (yahoo_getQuote src symbol) as [q|]; cbn.
    + now apply well_kinded_set.
    + destruct (alpha_getQuote src symbol); cbn; [now apply well_kinded_set | exact Hg].
  - unfold getHistoricalData.
    pose proof (well_kinded_get now (historical_key symbol period) c H) as Hg.
    destruct (Cache.get now (historical_key symbol period) c) as [[v|] c1]; cbn in *;
      [exact Hg|].
    destruct (_ && _); cbn.
    + destruct (filter _ _) as [|d ds]; cbn; [exact Hg | now apply well_kinded_set].
    + destruct (yahoo_getHistoricalData src symbol period) as [|d ds]; cbn;
        [exact Hg | now apply well_kinded_set].
  - unfold searchStocks. destruct (_ <? _)%nat; [exact H|].
    pose proof (well_kinded_get now (search_key query) c H) as Hg.
    destruct (Cache.get now (search_key query) c) as [[v|] c1]; cbn in *; [exact Hg|].
    destruct (yahoo_searchStocks src query) as [|d ds]; cbn;
      [exact Hg | now apply well_kinded_set].
  - intros k e Hk. apply run_timers_lookup in Hk. eauto.
Qed.

Lemma well_kinded_run ops : well_kinded (run ops).
Proof.
  unfold run. assert (H0 : well_kinded (@Cache.empty Value)).
  { intros k e. cbn. rewrite lookup_empty. discriminate. }
  revert H0. generalize (@Cache.empty Value).
  induction ops as [|op ops IH]; intros c Hc; cbn; [exact Hc|].
  apply IH, well_kinded_exec, Hc.
Qed.

Lemma get_kind now key c v :
  well_kinded c -> (Cache.get now key c).1 = Some v -> key_holds key v = true.
Proof.
  intros H Hg. apply get_Some_lookup in Hg as (_ & e & He & <-). eauto.
Qed.

(** X7.  The cache stores values of erased type, but in every state the
    aggregator can reach each key holds the kind of value of the method that
    owns it: [getQuote] resolves to a quote or [null], [getHistoricalData]
    to an array of bars and [searchStocks] to an array of search results,
    also when they answer from the cache. *)
Theorem cached_values_have_the_expected_kind (ops : list Op) now later src :
  let c := run ops in
  (forall symbol,
     returned (getQuote now later src symbol c) = None \/
     exists q, returned (getQuote now later src symbol c) = Some (VQuote q)) /\
  (forall symbol period,
     exists bars,
       returned (getHistoricalData now later src symbol period c) = Some (VBars bars)) /\
  (forall query,
     exists results,
       returned (searchStocks now later src query c) = Some (VSearch results)).
Proof.
  intros c. pose proof (well_kinded_run ops) as Hc. fold c in Hc.
  split; [|split].
  - intros symbol. unfold getQuote.
    pose proof (get_kind now (quote_key symbol) c) as Hk.
    destruct (Cache.get now (quote_key symbol) c) as [[v|] c1]; cbn in *.
    + specialize (Hk v Hc eq_refl). destruct v; try discriminate. eauto.
    + destruct (yahoo_getQuote src symbol); cbn; [eauto|].
      destruct (alpha_getQuote src symbol); cbn; eauto.
  - intros symbol period. unfold getHistoricalData.
    pose proof (get_kind now (historical_key symbol period) c) as Hk.
    destruct (Cache.get now (historical_key symbol period) c) as [[v|] c1]; cbn in *.
    + specialize (Hk v Hc eq_refl). destruct v; try discriminate. eauto.
    + destruct (_ && _); cbn; eauto.
  - intros query. unfold searchStocks. destruct (_ <? _)%nat; cbn; [eauto|].
    pose proof (get_kind now (search_key query) c) as Hk.
    destruct (Cache.get now (search_key query) c) as [[v|] c1]; cbn in *.
    + specialize (Hk v Hc eq_refl). destruct v; try discriminate. eauto.
    + eauto.
Qed.

End AggregatorMoreFacts.

Lemma fetched_results_are_served_from_cache_witness :
  let bar :=
    {| Types.date := 5; Types.open := JS.Fin 10; Types.high := JS.Fin 12;
       Types.low := JS.Fin 9; Types.close := JS.Fin 11;
       Types.volume := JS.Fin 1000; Types.adjClose := None |} in
  let up :=
    {| Aggregator.yahoo_getQuote := fun _ => None;
       Aggregator.alpha_getQuote := fun _ => None;
       Aggregator.yahoo_getHistoricalData := fun _ _ => [bar];
       Aggregator.alpha_getHistoricalData := fun _ _ => [];
       Aggregator.yahoo_searchStocks := fun _ => [] |} in
  let down :=
    {| Aggregator.yahoo_getQuote := fun _ => None;
       Aggregator.alpha_getQuote := fun _ => None;
       Aggregator.yahoo_getHistoricalData := fun _ _ => [];
       Aggregator.alpha_getHistoricalData := fun _ _ => [];
       Aggregator.yahoo_searchStocks := fun _ => [] |} in
  let r := Aggregator.getHistoricalData 0 10 up "AAPL" Aggregator.P1y Cache.empty in
  (60010 - 10 <= Cache.defaultTTL)%Z /\
  Aggregator.returned
    (Aggregator.getHistoricalData 60010 60020 down "AAPL" Aggregator.P1y
       (Aggregator.cache_after r)) = Some (Aggregator.VBars [bar]) /\
  Aggregator.queries
    (Aggregator.getHistoricalData 60010 60020 down "AAPL" Aggregator.P1y
       (Aggregator.cache_after r)) = [].
Proof.
  intros bar up down r.
  assert (Hage : (60010 - 10 <= Cache.defaultTTL)%Z) by (vm_compute; discriminate).
  destruct (fetched_results_are_served_from_cache 0 10 60010 60020 up down Cache.empty Hage)
    as (_ & Hh & _).
  assert (Hq : Aggregator.queries r <> []) by discriminate.
  assert (Ha : Aggregator.is_absent (Aggregator.returned r) = false) by reflexivity.
  pose proof (Hh "AAPL" Aggregator.P1y Hq Ha) as E.
  split; [exact Hage|].
  split; [exact (f_equal Aggregator.returned E) | exact (f_equal Aggregator.queries E)].
Defined.

Lemma alpha_fallback_discipline_witness :
  let bar := fun t =>
    {| Types.date := t; Types.open := JS.Fin 10; Types.high := JS.Fin 12;
       Types.low := JS.Fin 9; Types.close := JS.Fin 11;
       Types.volume := JS.Fin 1000; Types.adjClose := Some (JS.Fin 11) |} in
  let src :=
    {| Aggregator.yahoo_getQuote := fun _ => None;
       Aggregator.alpha_getQuote := fun _ => None;
       Aggregator.yahoo_getHistoricalData := fun _ _ => [];
       Aggregator.alpha_getHistoricalData :=
         fun _ _ => [bar 0%Z; bar 1700000000000%Z];
       Aggregator.yahoo_searchStocks := fun _ => [] |} in
  let r := Aggregator.getHistoricalData 1700000000000 1700000001000 src "AAPL"
             Aggregator.P1mo Cache.empty in
  In (Aggregator.AlphaHistory "AAPL" Aggregator.compact) (Aggregator.queries r) /\
  Aggregator.returned r = Some (Aggregator.VBars [bar 1700000000000%Z]).
Proof.
  intros bar src r.
  assert (Hin : In (Aggregator.AlphaHistory "AAPL" Aggregator.compact)
                   (Aggregator.queries r)) by (right; left; reflexivity).
  destruct (alpha_fallback_discipline 1700000000000 1700000001000 src "AAPL"
              Aggregator.P1mo Cache.empty Aggregator.compact Hin)
    as (_ & _ & _ & bars & Hr & Hb & _).
  split; [exact Hin|]. exact (eq_trans Hr (f_equal (fun b => Some (Aggregator.VBars b)) Hb)).
Defined.

(** ** The indicator engine *)

Section AverageFacts.
Import Arr Indicators.

Lemma sum_within_acc (data : list num) (lo hi : Q) : forall (a : Q) (n : nat),
  Forall (within lo hi) data ->
  (inject_Z (Z.of_nat n) * lo <= a <= inject_Z (Z.of_nat n) * hi)%Q ->
  exists s,
    foldl add #a data = #s /\
    (inject_Z (Z.of_nat (n + length data)) * lo <= s
     <= inject_Z (Z.of_nat (n + length data)) * hi)%Q.
Proof.
  induction data as [|d data IH]; intros a n Hall Ha.
  - exists a. cbn. rewrite Nat.add_0_r. auto.
  - inversion Hall as [|? ? Hd Hrest]; subst.
    destruct d as [q| | |]; cbn in Hd; try contradiction.
    cbn [foldl add length].
    destruct (IH (a + q)%Q (S n) Hrest) as (s & Hs & Hb).
    + rewrite Nat2Z.inj_succ. unfold Z.succ. rewrite inject_Z_plus.
      change (inject_Z 1) with 1%Q. lra.
    + exists s. split; [exact Hs|].
      replace (n + S (length data))%nat with (S n + length data)%nat by lia. exact Hb.
Qed.

Lemma sum_within (data : list num) (lo hi : Q) :
  Forall (within lo hi) data ->
  exists s,
    sum data = #s /\
    (inject_Z (Z.of_nat (length data)) * lo <= s
     <= inject_Z (Z.of_nat (length data)) * hi)%Q.
Proof.
  intros H. destruct (sum_within_acc data lo hi 0 0 H) as (s & Hs & Hb).
  - change (inject_Z (Z.of_nat 0)) with 0%Q. lra.
  - exists s. split; [exact Hs | exact Hb].
Qed.

Lemma slice_last_length {A} n (l : list A) :
  (1 <= n <= length l)%nat -> length (slice_last n l) = n.
Proof.
  intros H. destruct n; [lia|]. cbn [slice_last]. rewrite length_drop. lia.
Qed.

Lemma mean_within (data : list num) (lo hi : Q) :
  (1 <= length data)%nat ->
  Forall (within lo hi) data ->
  within lo hi (sum data / of_nat (length data)).
Proof.
  intros Hn Hall. destruct (sum_within data lo hi Hall) as (s & -> & Hb).
  unfold of_nat. pose proof (of_nat_pos _ Hn) as HP.
  set (P := inject_Z (Z.of_nat (length data))) in *.
  rewrite div_Fin by lra. cbn [within]. split.
  - apply Qle_shift_div_l; lra.
  - apply Qle_shift_div_r; lra.
Qed.

Lemma calculateSMA_within (data : list num) (period : nat) (lo hi : Q) :
  (1 <= period <= length data)%nat ->
  Forall (within lo hi) data ->
  within lo hi (calculateSMA data period).
Proof.
  intros Hp Hall. unfold calculateSMA.
  destruct (Nat.ltb_spec (length data) period); [lia|].
  rewrite <- (slice_last_length period data) at 2 by lia.
  apply mean_within.
  - rewrite slice_last_length; lia.
  - now apply slice_last_Forall.
Qed.

Lemma ema_step_within (lo hi m e d : Q) :
  (0 <= m <= 1)%Q -> (lo <= e <= hi)%Q -> (lo <= d <= hi)%Q ->
  (lo <= (d + - e) * m + e <= hi)%Q.
Proof. intros Hm He Hd. split; nra. Qed.

Lemma ema_fold_within (lo hi m : Q) (rest : list num) : forall e : Q,
  (0 <= m <= 1)%Q -> (lo <= e <= hi)%Q -> Forall (within lo hi) rest ->
  within lo hi (foldl (fun ema d => (d - ema) * #m + ema) #e rest).
Proof.
  induction rest as [|d rest IH]; intros e Hm He Hall.
  - exact He.
  - inversion Hall as [|? ? Hd Hrest]; subst.
    destruct d as [q| | |]; cbn in Hd; try contradiction.
    cbn [foldl sub neg add mul]. apply IH; [assumption | | assumption].
    now apply ema_step_within.
Qed.

Lemma ema_multiplier period :
  (1 <= period)%nat ->
  exists m, #2 / (of_nat period + #1) = #m /\ (0 <= m <= 1)%Q.
Proof.
  intros Hp. unfold of_nat. pose proof (of_nat_pos _ Hp) as HP.
  set (P := inject_Z (Z.of_nat period)) in *. cbn [add].
  assert (H1 : (1 <= P)%Q).
  { unfold P. change 1%Q with (inject_Z 1). rewrite <- Zle_Qle. lia. }
  rewrite div_Fin by lra. eexists. split; [reflexivity|]. split.
  - apply Qle_shift_div_l; lra.
  - apply Qle_shift_div_r; lra.
Qed.

Lemma calculateEMA_within (data : list num) (period : nat) (lo hi : Q) :
  (1 <= period <= length data)%nat ->
  Forall (within lo hi) data ->
  within lo hi (calculateEMA data period).
Proof.
  intros Hp Hall. unfold calculateEMA.
  destruct (Nat.ltb_spec (length data) period); [lia|].
  destruct (ema_multiplier period) as (m & -> & Hm); [lia|].
  assert (H0 : within lo hi (calculateSMA (take period data) period)).
  { apply calculateSMA_within; [rewrite length_take; lia | now apply Forall_take]. }
  destruct (calculateSMA (take period data) period) as [e| | |]; cbn in H0;
    try contradiction.
  apply ema_fold_within; [assumption | assumption | now apply Forall_drop].
Qed.

(** X8.  When every value of a series lies between [lo] and [hi], so do its
    simple and its exponential moving average over any period that the
    series covers; in particular both averages of a constant series are that
    constant. *)
Theorem averages_stay_within_the_data (data : list num) (period : nat) (lo hi : Q) :
  (1 <= period <= length data)%nat ->
  Forall (within lo hi) data ->
  within lo hi (calculateSMA data period) /\
  within lo hi (calculateEMA data period).
Proof.
  intros Hp Hall. split; [now apply calculateSMA_within | now apply calculateEMA_within].
Qed.

End AverageFacts.

Section BandFacts.
Import Types Arr Indicators.
Variable sqrt : num -> num.

Lemma sum_nonneg_acc (data : list num) : forall a : Q,
  Forall (fun x => exists q, x = #q /\ (0 <= q)%Q) data -> (0 <= a)%Q ->
  exists s, foldl add #a data = #s /\ (0 <= s)%Q.
Proof.
  induction data as [|d data IH]; intros a Hall Ha.
  - exists a. auto.
  - inversion Hall as [|? ? (q & -> & Hq) Hrest]; subst. cbn [foldl add].
    apply IH; [assumption | lra].
Qed.

Lemma sum_finite_acc (data : list num) : forall a : Q,
  Forall is_fin data -> exists s, foldl add #a data = #s.
Proof.
  induction data as [|d data IH]; intros a Hall.
  - exists a. reflexivity.
  - inversion Hall as [|? ? [q ->] Hrest]; subst. cbn [foldl add]. now apply IH.
Qed.

Lemma Forall_is_fin_map (prices : list Q) : Forall is_fin (map Fin prices).
Proof. apply Forall_fmap, Forall_true. intros q. now exists q. Qed.

Lemma calculateSMA_finite (data : list num) (period : nat) :
  (1 <= period <= length data)%nat -> Forall is_fin data ->
  exists m, calculateSMA data period = #m.
Proof.
  intros Hp Hall. unfold calculateSMA.
  destruct (Nat.ltb_spec (length data) period); [lia|].
  destruct (sum_finite_acc (slice_last period data) 0) as (s & Hs);
    [now apply slice_last_Forall|].
  unfold sum. rewrite Hs. unfold of_nat.
  pose proof (of_nat_pos period (proj1 Hp)) as HP.
  rewrite div_Fin by lra. eauto.
Qed.

Lemma sum_squares_nonneg (data : list num) (m : Q) :
  Forall is_fin data ->
  exists sq, sum (map (fun v => (v - #m) * (v - #m)) data) = #sq /\ (0 <= sq)%Q.
Proof.
  intros Hall. apply sum_nonneg_acc; [|lra].
  apply Forall_fmap. eapply Forall_impl; [exact Hall|].
  intros x [q ->]. cbn [sub neg add mul]. eexists. split; [reflexivity|].
  generalize (q + - m)%Q. intros y. nra.
Qed.

(** X9.  On a series of prices that covers the period, and for a square
    root that sends non-negative numbers to non-negative numbers, the middle
    Bollinger band is the simple moving average and the upper and lower
    bands lie at the same non-negative distance above and below it. *)
Theorem bollinger_bands_are_centred (prices : list Q) (period : nat) :
  (1 <= period <= length prices)%nat ->
  (forall v, (0 <= v)%Q -> exists r, sqrt #v = #r /\ (0 <= r)%Q) ->
  let bands := calculateBollingerBands sqrt (map Fin prices) period in
  middle bands = calculateSMA (map Fin prices) period /\
  exists m w,
    middle bands = #m /\ (0 <= w)%Q /\
    eqn (upper bands) #(m + w) /\ eqn (lower bands) #(m - w).
Proof.
  intros Hp Hsqrt bands. split; [reflexivity|].
  unfold bands, calculateBollingerBands. cbn [middle upper lower].
  assert (Hlen : (1 <= period <= length (map Fin prices))%nat)
    by (rewrite length_map; exact Hp).
  pose proof (of_nat_pos period (proj1 Hp)) as HP.
  destruct (calculateSMA_finite _ _ Hlen (Forall_is_fin_map prices)) as (m & ->).
  destruct (sum_squares_nonneg (slice_last period (map Fin prices)) m)
    as (sq & -> & Hsq); [apply slice_last_Forall, Forall_is_fin_map|].
  unfold of_nat. rewrite div_Fin by lra.
  destruct (Hsqrt (sq / inject_Z (Z.of_nat period))%Q) as (r & -> & Hr).
  { apply Qle_shift_div_l; lra. }
  exists m, (2 * r)%Q. cbn [mul add sub neg eqn].
  split; [reflexivity|]. split; [lra|]. split; lra.
Qed.

End BandFacts.

Section MacdFacts.
Import Types Arr Indicators.

Lemma macd_loop_within (lo hi : Q) (rest : list num) :
  forall (e12 e26 : Q) (vals : list num),
    (lo <= e12 <= hi)%Q -> (lo <= e26 <= hi)%Q ->
    Forall (within lo hi) rest ->
    Forall (within (lo - hi) (hi - lo)) vals ->
    Forall (within (lo - hi) (hi - lo))
      (foldl (fun st d =>
                let '(e12, e26, vals) := st in
                let e12' := (d - e12) * (#2 / #13) + e12 in
                let e26' := (d - e26) * (#2 / #27) + e26 in
                (e12', e26', vals ++ [e12' - e26']))
             (#e12, #e26, vals) rest).2.
Proof.
  induction rest as [|d rest IH]; intros e12 e26 vals H12 H26 Hall Hvals.
  - exact Hvals.
  - inversion Hall as [|? ? Hd Hrest]; subst.
    destruct d as [q| | |]; cbn in Hd; try contradiction.
    cbn [foldl].
    change (#2 / #13) with #(2 / 13). change (#2 / #27) with #(2 / 27).
    cbn [sub neg add mul].
    assert (H12' : (lo <= (q + - e12) * (2 / 13) + e12 <= hi)%Q).
    { apply ema_step_within; [split; [discriminate | discriminate] | assumption | assumption]. }
    assert (H26' : (lo <= (q + - e26) * (2 / 27) + e26 <= hi)%Q).
    { apply ema_step_within; [split; [discriminate | discriminate] | assumption | assumption]. }
    apply IH; try assumption.
    apply Forall_app. split; [assumption|]. constructor; [|constructor].
    cbn. lra.
Qed.

(** X10.  When every value of a series of at least 26 values lies between
    [lo] and [hi], the MACD line and the signal line lie between [lo - hi]
    and [hi - lo] and the histogram between twice these bounds; on a
    constant series all three are zero. *)
Theorem macd_is_bounded_by_the_range (data : list num) (lo hi : Q) :
  (26 <= length data)%nat ->
  Forall (within lo hi) data ->
  let r := calculateMACD data in
  within (lo - hi) (hi - lo) (macd r) /\
  within (lo - hi) (hi - lo) (signal r) /\
  within (2 * (lo - hi)) (2 * (hi - lo)) (histogram r).
Proof.
  intros Hlen Hall r. unfold r, calculateMACD. cbn [macd signal histogram].
  pose proof (calculateEMA_within data 12 lo hi ltac:(lia) Hall) as H12.
  pose proof (calculateEMA_within data 26 lo hi ltac:(lia) Hall) as H26.
  destruct (calculateEMA data 12) as [e12| | |]; cbn in H12; try contradiction.
  destruct (calculateEMA data 26) as [e26| | |]; cbn in H26; try contradiction.
  assert (Hs12 : within lo hi (calculateSMA (take 12 data) 12)).
  { apply calculateSMA_within; [rewrite length_take; lia | now apply Forall_take]. }
  assert (Hs26 : within lo hi (calculateSMA (take 26 data) 26)).
  { apply calculateSMA_within; [rewrite length_take; lia | now apply Forall_take]. }
  destruct (calculateSMA (take 12 data) 12) as [s12| | |]; cbn in Hs12; try contradiction.
  destruct (calculateSMA (take 26 data) 26) as [s26| | |]; cbn in Hs26; try contradiction.
  unfold macd_loop.
  pose proof (macd_loop_within lo hi (drop 26 data) s12 s26 [] Hs12 Hs26
                (Forall_drop _ _ _ Hall) (Forall_nil_2 _)) as Hvals.
  set (vals := (foldl _ _ _).2) in *.
  assert (Hline : within (lo - hi) (hi - lo) (#e12 - #e26)) by (cbn; lra).
  assert (Hsig : within (lo - hi) (hi - lo)
                   (if (9 <=? length vals)%nat then calculateEMA vals 9 else #e12 - #e26)).
  { destruct (Nat.leb_spec 9 (length vals)); [|exact Hline].
    apply calculateEMA_within; [lia | exact Hvals]. }
  split; [exact Hline|]. split; [exact Hsig|].
  destruct (if (9 <=? length vals)%nat then calculateEMA vals 9 else #e12 - #e26)
    as [sg| | |]; cbn in Hsig; try contradiction.
  cbn in *. lra.
Qed.

End MacdFacts.

Section RsiExtremes.
Import Arr Indicators Trend.

Lemma changes_of_nondecreasing prices :
  nondecreasing prices ->
  Forall (fun x => exists q, x = #q /\ (0 <= q)%Q) (changes_of (map Fin prices)).
Proof.
  induction prices as [|a [|b rest] IH]; cbn; try constructor.
  - destruct H as [Hab _]. eexists; split; [reflexivity | lra].
  - apply IH, H.
Qed.

Lemma changes_of_decreasing prices :
  decreasing prices ->
  Forall (fun x => exists q, x = #q /\ (q < 0)%Q) (changes_of (map Fin prices)).
Proof.
  induction prices as [|a [|b rest] IH]; cbn; try constructor.
  - destruct H as [Hab _]. eexists; split; [reflexivity | lra].
  - apply IH, H.
Qed.

Lemma changes_of_cons_length (data : list num) : forall a,
  length (changes_of (a :: data)) = length data.
Proof.
  induction data as [|b rest IH]; intros a; [reflexivity|].
  cbn [changes_of length]. f_equal. apply IH.
Qed.

Lemma changes_of_length (data : list num) :
  length (changes_of data) = (length data - 1)%nat.
Proof.
  destruct data as [|a data]; [reflexivity|].
  rewrite changes_of_cons_length. cbn. lia.
Qed.

Lemma gains_losses_no_fall recent : forall g0 l0 : Q,
  Forall (fun x => exists q, x = #q /\ (0 <= q)%Q) recent -> (l0 == 0)%Q ->
  exists g l,
    foldl (fun gl change =>
             if gt change #0 then (gl.1 + change, gl.2)
             else (gl.1, gl.2 - change)) (#g0, #l0) recent = (#g, #l) /\
    (l == 0)%Q.
Proof.
  induction recent as [|c rest IH]; intros g0 l0 Hall Hl.
  - exists g0, l0. auto.
  - inversion Hall as [|? ? (q & -> & Hq) Hrest]; subst. cbn [foldl fst snd].
    unfold gt. destruct (lt #0 #q) eqn:E.
    + cbn [add]. now apply IH.
    + apply lt_Fin_false in E. cbn [sub neg add]. apply IH; [assumption | lra].
Qed.

Lemma gains_losses_all_fall recent : forall l0 : Q,
  Forall (fun x => exists q, x = #q /\ (q < 0)%Q) recent -> (0 <= l0)%Q ->
  exists l,
    foldl (fun gl change =>
             if gt change #0 then (gl.1 + change, gl.2)
             else (gl.1, gl.2 - change)) (#0, #l0) recent = (#0, #l) /\
    (l0 <= l)%Q /\ ((1 <= length recent)%nat -> (0 < l)%Q).
Proof.
  induction recent as [|c rest IH]; intros l0 Hall Hl.
  - exists l0. cbn. split; [reflexivity|]. split; [lra | lia].
  - inversion Hall as [|? ? (q & -> & Hq) Hrest]; subst. cbn [foldl fst snd].
    assert (E : gt #q #0 = false) by (apply lt_Fin_false; lra).
    rewrite E. cbn [sub neg add].
    destruct (IH (l0 + - q)%Q Hrest) as (l & -> & Hle & _); [lra|].
    exists l. split; [reflexivity|]. split; [lra|]. intros _. lra.
Qed.

(** X11.  On a series of at least [period + 1] prices the RSI is 100 when no
    price is lower than the one before it (so also on a constant series,
    which has no gain either), and 0 when every price is lower than the one
    before it. *)
Theorem rsi_extremes (prices : list Q) (period : nat) :
  (1 <= period)%nat -> (period + 1 <= length prices)%nat ->
  (nondecreasing prices -> calculateRSI (map Fin prices) period = #100) /\
  (decreasing prices -> eqn (calculateRSI (map Fin prices) period) #0).
Proof.
  intros Hp Hlen. pose proof (of_nat_pos period Hp) as HP.
  unfold calculateRSI. rewrite length_map.
  destruct (Nat.ltb_spec (length prices) (period + 1)); [lia|].
  unfold gains_losses, of_nat. split; intros Hmono.
  - destruct (gains_losses_no_fall
                (slice_last period (changes_of (map Fin prices))) 0 0)
      as (g & l & -> & Hl);
      [apply slice_last_Forall, changes_of_nondecreasing, Hmono | reflexivity |].
    cbn [fst snd]. rewrite !div_Fin by lra.
    assert (E : seq #(l / inject_Z (Z.of_nat period)) #0 = true).
    { apply seq_Fin. rewrite Hl. unfold Qdiv. lra. }
    now rewrite E.
  - destruct (gains_losses_all_fall
                (slice_last period (changes_of (map Fin prices))) 0)
      as (l & -> & _ & Hl);
      [apply slice_last_Forall, changes_of_decreasing, Hmono | lra |].
    assert (Hl0 : (0 < l)%Q).
    { apply Hl. rewrite slice_last_length; [lia|].
      rewrite changes_of_length, length_map. lia. }
    cbn [fst snd]. rewrite !div_Fin by lra.
    set (P := inject_Z (Z.of_nat period)) in *.
    assert (HlP : (0 < l / P)%Q) by (apply Qlt_shift_div_l; lra).
    assert (E : seq #(l / P) #0 = false).
    { apply Bool.not_true_iff_false. rewrite seq_Fin. lra. }
    rewrite E, div_Fin by lra. cbn [add].
    assert (Hrs : (0 / P / (l / P) == 0)%Q) by (unfold Qdiv; lra).
    rewrite div_Fin by (rewrite Hrs; discriminate).
    cbn [sub neg add eqn]. rewrite Hrs. reflexivity.
Qed.

End RsiExtremes.

Lemma averages_stay_within_the_data_witness :
  let data := [ #10; #12; #11; #10 ] in
  (1 <= 3 <= length data)%nat /\
  within 10 12 (Indicators.calculateSMA data 3) /\
  within 10 12 (Indicators.calculateEMA data 3).
Proof.
  intros data.
  assert (Hp : (1 <= 3 <= length data)%nat) by (cbn; lia).
  assert (Hall : Forall (within 10 12) data)
    by (repeat constructor; discriminate).
  split; [exact Hp|]. exact (averages_stay_within_the_data data 3 10 12 Hp Hall).
Defined.

Lemma bollinger_bands_are_centred_witness :
  let bands := Indicators.calculateBollingerBands (fun x => x) (map Fin [1; 2; 3]%Q) 3 in
  exists m w,
    Types.middle bands = #m /\ (0 <= w)%Q /\
    eqn (Types.upper bands) #(m + w) /\ eqn (Types.lower bands) #(m - w).
Proof.
  refine (proj2 (bollinger_bands_are_centred (fun x => x) [1; 2; 3]%Q 3 _ _)).
  - cbn. lia.
  - intros v Hv. exists v. split; [reflexivity | exact Hv].
Defined.

Lemma macd_is_bounded_by_the_range_witness :
  let r := Indicators.calculateMACD (repeat #5 30) in
  within (5 - 5) (5 - 5) (Types.macd r) /\
  within (5 - 5) (5 - 5) (Types.signal r) /\
  within (2 * (5 - 5)) (2 * (5 - 5)) (Types.histogram r).
Proof.
  refine (macd_is_bounded_by_the_range (repeat #5 30) 5 5 _ _).
  - cbn. lia.
  - apply list.Forall_forall. intros x Hx. apply list_elem_of_In, repeat_spec in Hx.
    subst x. split; discriminate.
Defined.

Lemma rsi_extremes_witness :
  Indicators.calculateRSI (map Fin (repeat 5%Q 16)) 14 = #100 /\
  eqn (Indicators.calculateRSI
         (map Fin [16; 15; 14; 13; 12; 11; 10; 9; 8; 7; 6; 5; 4; 3; 2; 1]%Q) 14) #0.
Proof.
  split.
  - refine (proj1 (rsi_extremes (repeat 5%Q 16) 14 _ _) _);
      [lia | cbn; lia | repeat split; discriminate].
  - refine (proj2 (rsi_extremes
                     [16; 15; 14; 13; 12; 11; 10; 9; 8; 7; 6; 5; 4; 3; 2; 1]%Q 14 _ _) _);
      [lia | cbn; lia | repeat split; reflexivity].
Defined.

(** ** Feature engineering *)

Section FeatureFacts.
Import Types Arr Features.
Variable sqrt : num -> num.

Lemma features_SMA_agree (data : list num) (period : nat) :
  (period <= length data)%nat ->
  Features.calculateSMA data period = Indicators.calculateSMA data period.
Proof.
  intros H. unfold Features.calculateSMA, Indicators.calculateSMA.
  destruct (Nat.ltb_spec (length data) period); [lia | reflexivity].
Qed.

Lemma features_EMA_agree (data : list num) (period : nat) :
  (period <= length data)%nat ->
  Features.calculateEMA data period = Indicators.calculateEMA data period.
Proof.
  intros H. unfold Features.calculateEMA, Indicators.calculateEMA.
  destruct (Nat.ltb_spec (length data) period); [lia|].
  rewrite features_SMA_agree by (rewrite length_take; lia). reflexivity.
Qed.

(** X12.  On a series that covers the period, the moving averages and the
    Bollinger bands of the preprocessing module are those of the aggregator,
    and so is the MACD on a series of at least 26 values: features and
    displayed indicators are computed alike. *)
Theorem indicator_copies_agree (data : list num) (period : nat) :
  (period <= length data)%nat ->
  Features.calculateSMA data period = Indicators.calculateSMA data period /\
  Features.calculateEMA data period = Indicators.calculateEMA data period /\
  Features.calculateBollingerBands sqrt data period
  = Indicators.calculateBollingerBands sqrt data period /\
  ((26 <= length data)%nat ->
   Features.calculateMACD data = Indicators.calculateMACD data).
Proof.
  intros H. split; [now apply features_SMA_agree|].
  split; [now apply features_EMA_agree|]. split.
  - unfold Features.calculateBollingerBands, Indicators.calculateBollingerBands.
    now rewrite features_SMA_agree.
  - intros H26. unfold Features.calculateMACD, Indicators.calculateMACD,
      Indicators.macd_loop.
    rewrite !features_EMA_agree by lia.
    rewrite !features_SMA_agree by (rewrite length_take; lia).
    set (vals := (foldl _ _ _).2).
    destruct (Nat.leb_spec 9 (length vals)); [|reflexivity].
    now rewrite features_EMA_agree.
Qed.

Lemma imap_take_ext {A B} (f g : nat -> A -> B) (n : nat) (l : list A) :
  (forall i x, (i < n)%nat -> l !! i = Some x -> f i x = g i x) ->
  imap f (take n l) = take n (imap g l).
Proof.
  intros H. apply list_eq. intros i.
  rewrite list_lookup_imap. destruct (decide (i < n)%nat) as [Hi|Hi].
  - rewrite !lookup_take_lt by assumption. rewrite list_lookup_imap.
    destruct (l !! i) as [x|] eqn:E; cbn; [|reflexivity].
    f_equal. now apply H.
  - rewrite !lookup_take_ge by lia. reflexivity.
Qed.

Lemma take_map_take {A B} (f : A -> B) (l : list A) : forall a n : nat,
  (a <= n)%nat -> take a (map f (take n l)) = take a (map f l).
Proof.
  induction l as [|x l IH]; intros a n H; [now destruct n|].
  destruct n; [now replace a with 0%nat by lia|].
  destruct a; [reflexivity|]. cbn. f_equal. apply IH. lia.
Qed.

Lemma calculateTechnicalIndicators_take (n : nat) (data : list HistoricalDataPoint) :
  calculateTechnicalIndicators sqrt (take n data)
  = take n (calculateTechnicalIndicators sqrt data).
Proof.
  unfold calculateTechnicalIndicators. apply imap_take_ext.
  intros i x Hi _. f_equal. f_equal.
  apply take_map_take. lia.
Qed.

Lemma flat_map_ext_on {A B} (f g : A -> list B) (l : list A) :
  (forall x, In x l -> f x = g x) -> flat_map f l = flat_map g l.
Proof.
  induction l as [|x l IH]; intros H; [reflexivity|]. cbn.
  rewrite (H x (or_introl eq_refl)), IH; [reflexivity|].
  intros y Hy. apply H. now right.
Qed.

Lemma close_at_take (n j : nat) (w : list WithIndicators) :
  (j < n)%nat -> close_at (take n w) j = close_at w j.
Proof. intros H. unfold close_at. now rewrite lookup_take_lt. Qed.

Lemma feature_row_take (n i : nat) (data : list HistoricalDataPoint)
    (w : list WithIndicators) (d : WithIndicators) :
  (i < n)%nat ->
  feature_row sqrt (take n data) (take n w) i d = feature_row sqrt data w i d.
Proof.
  intros Hi. unfold feature_row, momentum, rolling_volatility.
  rewrite take_take. replace (Nat.min (i + 1) n) with (i + 1)%nat by lia.
  rewrite !close_at_take by lia.
  destruct (20 <=? i)%nat eqn:E20; [|reflexivity].
  apply Nat.leb_le in E20.
  assert (Hr : rolling_returns (take n w) i = rolling_returns w i).
  { unfold rolling_returns. apply flat_map_ext_on. intros j Hj.
    apply in_seq in Hj. destruct (0 <? j)%nat; [|reflexivity].
    rewrite !close_at_take by lia. reflexivity. }
  rewrite Hr. reflexivity.
Qed.

(** X13.  Feature engineering does not look ahead: the feature rows of the
    first [n] bars of a series, computed from those bars alone, are the
    first [n] feature rows computed from the whole series. *)
Theorem prepareFeatures_has_no_look_ahead (n : nat) (data : list HistoricalDataPoint) :
  prepareFeatures sqrt (take n data) = take n (prepareFeatures sqrt data).
Proof.
  unfold prepareFeatures. rewrite calculateTechnicalIndicators_take.
  apply imap_take_ext. intros i d Hi _. now apply feature_row_take.
Qed.

(** [prepareFeatures] gives one row per bar, each of 25 features. *)
Lemma prepareFeatures_shape (data : list HistoricalDataPoint) :
  length (prepareFeatures sqrt data) = length data /\
  Forall (fun row => length row = 25%nat) (prepareFeatures sqrt data).
Proof.
  unfold prepareFeatures, calculateTechnicalIndicators. split.
  - now rewrite !length_imap.
  - apply list.Forall_forall. intros row Hrow.
    apply list_elem_of_lookup in Hrow as [i Hi].
    rewrite list_lookup_imap in Hi.
    destruct (_ !! i) as [d|]; [|discriminate]. cbn in Hi.
    injection Hi as <-. reflexivity.
Qed.

End FeatureFacts.

Section WindowFacts.
Import Features.
Context {A : Type}.

Lemma createSequences_length (data : list A) (L : nat) :
  length (createSequences data L) = (length data + 1 - L)%nat.
Proof. unfold createSequences. now rewrite length_map, length_seq. Qed.

Lemma createSequences_lookup (data : list A) (L k : nat) :
  (k < length data + 1 - L)%nat ->
  createSequences data L !! k = Some (take L (drop k data)).
Proof.
  intros H. unfold createSequences.
  change (map ?f ?l) with (f <$> l). rewrite list_lookup_fmap.
  rewrite lookup_seq_lt by assumption. cbn. do 3 f_equal. lia.
Qed.

(** X14.  [createSequences] gives one window per end position: with [L] the
    window length, the [k]-th of its [length data + 1 - L] windows is made
    of the [L] rows from row [k] on, so that the last window ends with the
    last row. *)
Theorem createSequences_windows (data : list A) (L k : nat) :
  (k < length data + 1 - L)%nat ->
  length (createSequences data L) = (length data + 1 - L)%nat /\
  createSequences data L !! k = Some (take L (drop k data)) /\
  length (take L (drop k data)) = L /\
  last (createSequences data L) = Some (drop (length data - L) data).
Proof.
  intros H. split; [apply createSequences_length|].
  split; [now apply createSequences_lookup|].
  split; [rewrite length_take, length_drop; lia|].
  rewrite last_lookup, createSequences_length.
  replace (Init.Nat.pred (length data + 1 - L)) with (length data - L)%nat by lia.
  rewrite createSequences_lookup by lia. f_equal.
  apply take_ge. rewrite length_drop. lia.
Qed.

End WindowFacts.

Section FlattenFacts.
Import Features.
Context {A : Type}.

Lemma take_drop_take {B} (l : list B) (a k m : nat) :
  (k + a <= m)%nat -> take a (drop k (take m l)) = take a (drop k l).
Proof.
  intros H. apply list_eq. intros i.
  destruct (decide (i < a)%nat) as [Hi|Hi].
  - rewrite !lookup_take_lt, !lookup_drop by assumption.
    rewrite lookup_take_lt by lia. reflexivity.
  - rewrite !lookup_take_ge by lia. reflexivity.
Qed.

(** X15.  The flattened tabular rows are the windows of [lookback] rows
    over the data without its last row, each laid end to end: there are
    [length data - lookback] of them and the latest row of the data enters
    none. *)
Theorem flattenForXgboost_lags_one_row (data : list (list A)) (lookback : nat) :
  (1 <= lookback)%nat ->
  length (flattenForXgboost data lookback) = (length data - lookback)%nat /\
  flattenForXgboost data lookback
  = map (fun w => concat w) (createSequences (take (length data - 1) data) lookback).
Proof.
  intros Hl. unfold flattenForXgboost, createSequences.
  split; [now rewrite length_map, length_seq|].
  rewrite map_map, length_take.
  replace (Nat.min (length data - 1) (length data) + 1 - lookback)%nat
    with (length data - lookback)%nat by lia.
  apply map_ext_in. intros i Hi. apply in_seq in Hi.
  f_equal. symmetry. apply take_drop_take. lia.
Qed.

End FlattenFacts.

Section ProcessFacts.
Import Types Features.
Variable sqrt : num -> num.

Lemma scaleFeatures_length features params :
  length (Preprocessing.scaleFeatures features params) = length features.
Proof. unfold Preprocessing.scaleFeatures. apply length_map. Qed.

Lemma scaleFeatures_rows (w : nat) features params :
  Forall (fun row => length row = w) features ->
  Forall (fun row : list num => length row = w)
         (Preprocessing.scaleFeatures features params).
Proof.
  intros H. unfold Preprocessing.scaleFeatures.
  change (map ?f ?l) with (f <$> l). apply Forall_fmap.
  eapply Forall_impl; [exact H|]. intros row Hrow. cbn. now rewrite length_imap.
Qed.

Lemma concat_length_uniform {B} (w : nat) (rows : list (list B)) :
  Forall (fun row => length row = w) rows ->
  length (concat rows) = (length rows * w)%nat.
Proof.
  induction 1 as [|row rows Hrow _ IH]; [reflexivity|].
  cbn. rewrite length_app, IH, Hrow. reflexivity.
Qed.

(** X16.  From [n] bars and a sequence length [L], [processDataForPrediction]
    keeps the [n - max(200, L)] feature rows from row [max(200, L)] on and
    builds [n - max(200, L) + 1 - L] sequence windows and
    [n - max(200, L) - 5] tabular rows of 125 entries each.  With the
    default length of 60 there is a window, and then a tabular row, exactly
    from 260 bars on. *)
Theorem processDataForPrediction_counts (data : list HistoricalDataPoint)
    (params : Preprocessing.ScalerParams) (L : nat) :
  let r := processDataForPrediction sqrt data params L in
  let n := length data in
  length (scaled r) = (n - Nat.max 200 L)%nat /\
  length (sequences r) = (n - Nat.max 200 L + 1 - L)%nat /\
  length (flattenedForXgb r) = (n - Nat.max 200 L - 5)%nat /\
  Forall (fun row => length row = 125%nat) (flattenedForXgb r) /\
  (sequences (processDataForPrediction sqrt data params 60) <> [] <-> (260 <= n)%nat) /\
  ((6 <= L)%nat -> sequences r <> [] -> flattenedForXgb r <> []).
Proof.
  intros r n. unfold r, processDataForPrediction. cbn [scaled sequences flattenedForXgb].
  destruct (prepareFeatures_shape sqrt data) as [Hlen Hrows].
  assert (Hs : forall L', length (Preprocessing.scaleFeatures
                          (drop (Nat.max 200 L') (prepareFeatures sqrt data)) params)
               = (n - Nat.max 200 L')%nat).
  { intros L'. rewrite scaleFeatures_length, length_drop, Hlen. reflexivity. }
  assert (Hw : Forall (fun row : list num => length row = 25%nat)
                 (Preprocessing.scaleFeatures
                    (drop (Nat.max 200 L) (prepareFeatures sqrt data)) params)).
  { apply scaleFeatures_rows. now apply Forall_drop. }
  split; [apply Hs|].
  split; [rewrite createSequences_length, Hs; reflexivity|].
  assert (Hf : length (flattenForXgboost
                         (Preprocessing.scaleFeatures
                            (drop (Nat.max 200 L) (prepareFeatures sqrt data)) params) 5)
               = (n - Nat.max 200 L - 5)%nat).
  { unfold flattenForXgboost. now rewrite length_map, length_seq, Hs. }
  split; [exact Hf|]. split; [|split].
  - unfold flattenForXgboost. apply list.Forall_forall. intros row Hrow.
    apply list_elem_of_In, in_map_iff in Hrow as (i & <- & Hi). apply in_seq in Hi.
    rewrite Hs in Hi.
    rewrite (concat_length_uniform 25).
    + rewrite length_take, length_drop, Hs. lia.
    + apply Forall_take, Forall_drop, Hw.
  - rewrite <- length_zero_iff_nil, createSequences_length, Hs.
    change (Nat.max 200 60) with 200%nat. lia.
  - rewrite <- !length_zero_iff_nil, createSequences_length, Hs, Hf. lia.
Qed.

End ProcessFacts.

Section ScaleRange.
Import Preprocessing.

(** X17.  For a column with a positive range, the scaled value lies in
    [[0,1]] exactly when the raw value lies between the column's minimum and
    that minimum plus the range. *)
Theorem scaled_value_in_unit_interval params (f : nat) (x m r : Q) :
  data_min_ params !! f = Some #m ->
  data_range_ params !! f = Some #r ->
  (0 < r)%Q ->
  (within 0 1 (scale_cell params f #x) <-> (m <= x <= m + r)%Q).
Proof.
  intros Hm Hr Hpos.
  rewrite (scale_cell_nonzero params f x m r Hm Hr) by lra.
  cbn [within]. split.
  - intros [H0 H1]. 
    assert (E : (x - m == (x - m) / r * r)%Q) by (field; lra).
    split; nra.
  - intros [H0 H1]. split.
    + apply Qle_shift_div_l; lra.
    + apply Qle_shift_div_r; lra.
Qed.

End ScaleRange.

Lemma indicator_copies_agree_witness :
  let data := [ #1; #2; #3; #4 ] in
  (3 <= length data)%nat /\
  Features.calculateSMA data 3 = Indicators.calculateSMA data 3 /\
  Features.calculateEMA data 3 = Indicators.calculateEMA data 3.
Proof.
  intros data. assert (H : (3 <= length data)%nat) by (cbn; lia).
  destruct (indicator_copies_agree (fun x => x) data 3 H) as (H1 & H2 & _).
  split; [exact H|]. split; [exact H1 | exact H2].
Defined.

Lemma createSequences_windows_witness :
  Features.createSequences [10; 20; 30; 40]%nat 3 !! 1%nat = Some [20; 30; 40]%nat /\
  last (Features.createSequences [10; 20; 30; 40]%nat 3) = Some [20; 30; 40]%nat.
Proof.
  assert (H : (1 < length [10; 20; 30; 40]%nat + 1 - 3)%nat) by (cbn; lia).
  destruct (createSequences_windows [10; 20; 30; 40]%nat 3 1 H) as (_ & H1 & _ & H2).
  split; [exact H1 | exact H2].
Defined.

Lemma flattenForXgboost_lags_one_row_witness :
  Features.flattenForXgboost [[1]; [2]; [3]; [4]]%nat 2 = [[1; 2]; [2; 3]]%nat.
Proof.
  assert (H : (1 <= 2)%nat) by lia.
  exact (eq_trans (proj2 (flattenForXgboost_lags_one_row [[1]; [2]; [3]; [4]]%nat 2 H))
                  eq_refl).
Defined.

Lemma processDataForPrediction_counts_witness :
  let bar :=
    {| Types.date := 0; Types.open := #10; Types.high := #12; Types.low := #9;
       Types.close := #11; Types.volume := #1000; Types.adjClose := None |} in
  let params :=
    {| Preprocessing.min_ := []; Preprocessing.scale_ := [];
       Preprocessing.data_min_ := []; Preprocessing.data_max_ := [];
       Preprocessing.data_range_ := [] |} in
  length (Features.sequences
            (Features.processDataForPrediction (fun x => x) (repeat bar 266) params 60))
  = 7%nat /\
  length (Features.flattenedForXgb
            (Features.processDataForPrediction (fun x => x) (repeat bar 266) params 60))
  = 61%nat.
Proof.
  intros bar params.
  destruct (processDataForPrediction_counts (fun x => x) (repeat bar 266) params 60)
    as (_ & H1 & H2 & _).
  rewrite repeat_length in H1, H2. split; [exact H1 | exact H2].
Defined.

Lemma scaled_value_in_unit_interval_witness :
  let params :=
    {| Preprocessing.min_ := []; Preprocessing.scale_ := [];
       Preprocessing.data_min_ := [ #100 ]; Preprocessing.data_max_ := [ #200 ];
       Preprocessing.data_range_ := [ #100 ] |} in
  within 0 1 (Preprocessing.scale_cell params 0 #150).
Proof.
  intros params.
  refine (proj2 (scaled_value_in_unit_interval params 0 150 100 100
                   eq_refl eq_refl _) _).
  - reflexivity.
  - split; discriminate.
Defined.

(** ** Ensemble utilities and the combiner *)

Section EnsembleFacts.
Import Ensemble.

Lemma max0_finite (a : Q) : exists b, max #0 #a = #b /\ (0 <= b)%Q.
Proof.
  unfold max. cbn [is_nan orb]. destruct (lt #0 #a) eqn:E.
  - apply lt_Fin in E. exists a. split; [reflexivity | lra].
  - exists 0%Q. split; [reflexivity | lra].
Qed.

(** X18.  For finite predictions and current price, and whatever the
    volatility argument, the confidence of the ensemble utilities is a
    number of [[0,100]]; its division is guarded, so that two zero
    predictions give 100 where [calculateConfidence] gives [NaN]. *)
Theorem calculatePredictionConfidence_within (l x p : Q) (volatility : option num) :
  within 0 100 (calculatePredictionConfidence #l #x #p volatility) /\
  calculatePredictionConfidence #0 #0 #p None = #100.
Proof.
  split.
  - unfold calculatePredictionConfidence. apply clamp_within.
    cbn [add sub neg abs].
    rewrite (div_Fin (l + x) 2) by (intros E; discriminate E).
    assert (Hrel : exists r, (if negb (seq #((l + x) / 2) #0)
                              then #(Qabs (l + - x)) / #((l + x) / 2) else #0) = #r).
    { destruct (seq #((l + x) / 2) #0) eqn:E; cbn [negb]; [eauto|].
      rewrite div_Fin; [eauto|]. intros H. apply seq_Fin in H. congruence. }
    destruct Hrel as [r ->]. cbn [mul add neg].
    destruct (max0_finite (1 + - (r * 5))) as (a & -> & _).
    destruct (Bool.eqb _ _); cbn [add sub neg];
      (destruct volatility as [v|]; [destruct (gt v #0); [destruct (gt _ _)|]|]);
      cbn [mul]; discriminate.
  - unfold calculatePredictionConfidence. cbn [add sub neg abs].
    change (seq (#(0 + 0) / #2) #0) with true. cbn [negb].
    change (max #0 (#1 - #0 * #5)) with #1.
    assert (E : Bool.eqb (gt #0 #p) (gt #0 #p) = true) by apply Bool.eqb_reflx.
    rewrite E. reflexivity.
Qed.

Lemma abs_sum_acc (errors : list Q) : forall a : Q,
  (0 <= a)%Q ->
  exists s, foldl (fun a b => a + abs b) #a (map Fin errors) = #s /\ (0 <= s)%Q.
Proof.
  induction errors as [|e errors IH]; intros a Ha.
  - exists a. auto.
  - cbn [map foldl abs add]. apply IH.
    pose proof (Qabs_nonneg e). lra.
Qed.

Lemma mean_abs_error_finite (errors : list Q) :
  errors <> [] ->
  exists m, mean_abs_error (map Fin errors) = #m /\ (0 <= m)%Q.
Proof.
  intros Hne. unfold mean_abs_error.
  destruct (abs_sum_acc errors 0) as (s & -> & Hs); [lra|].
  assert (Hn : (1 <= length (map Fin errors))%nat).
  { rewrite length_map. destruct errors; [congruence | cbn; lia]. }
  unfold Arr.of_nat. pose proof (of_nat_pos _ Hn) as HP.
  rewrite div_Fin by lra. eexists. split; [reflexivity|].
  apply Qle_shift_div_l; lra.
Qed.

(** X19.  From two non-empty lists of finite errors,
    [calculateOptimalWeights] gives two weights of [[0,1]] that sum to 1,
    and the model with the smaller mean absolute error gets the larger
    weight.  From an empty list of errors both weights are [NaN]. *)
Theorem optimal_weights_are_normalised (lstmErrors xgboostErrors : list Q) :
  lstmErrors <> [] -> xgboostErrors <> [] ->
  let w := calculateOptimalWeights (map Fin lstmErrors) (map Fin xgboostErrors) in
  (exists a b ml mx,
     lstm w = #a /\ xgboost w = #b /\
     mean_abs_error (map Fin lstmErrors) = #ml /\
     mean_abs_error (map Fin xgboostErrors) = #mx /\
     (0 <= a <= 1)%Q /\ (0 <= b <= 1)%Q /\ (a + b == 1)%Q /\
     ((ml <= mx)%Q -> (b <= a)%Q)) /\
  (forall errors,
     lstm (calculateOptimalWeights [] errors) = NaN /\
     xgboost (calculateOptimalWeights [] errors) = NaN).
Proof.
  intros Hl Hx w. split.
  - unfold w, calculateOptimalWeights.
    destruct (mean_abs_error_finite lstmErrors Hl) as (ml & -> & Hml).
    destruct (mean_abs_error_finite xgboostErrors Hx) as (mx & -> & Hmx).
    cbn [add]. destruct (seq #(ml + mx) #0) eqn:E; cbn [lstm xgboost].
    + apply seq_Fin in E. exists 0.5%Q, 0.5%Q, ml, mx.
      repeat split; try reflexivity; try discriminate.
    + assert (Ht : (0 < ml + mx)%Q).
      { assert (~ (ml + mx == 0)%Q) by (intros H; apply seq_Fin in H; congruence). lra. }
      rewrite !div_Fin by lra.
      exists (mx / (ml + mx))%Q, (ml / (ml + mx))%Q, ml, mx.
      assert (Ha : (0 <= mx / (ml + mx) <= 1)%Q)
        by (split; [apply Qle_shift_div_l | apply Qle_shift_div_r]; lra).
      assert (Hb : (0 <= ml / (ml + mx) <= 1)%Q)
        by (split; [apply Qle_shift_div_l | apply Qle_shift_div_r]; lra).
      repeat split; try reflexivity; try tauto.
      * field. lra.
      * intros Hle. unfold Qdiv. apply Qmult_le_compat_r; [exact Hle|].
        apply Qlt_le_weak, Qinv_lt_0_compat, Ht.
  - intros errors. unfold calculateOptimalWeights.
    change (mean_abs_error []) with NaN. cbn [add seq lstm xgboost div].
    destruct (mean_abs_error errors); split; reflexivity.
Qed.

End EnsembleFacts.

Lemma optimal_weights_are_normalised_witness :
  let w := Ensemble.calculateOptimalWeights (map Fin [1; -3]%Q) (map Fin [1; -1]%Q) in
  exists a b,
    Ensemble.lstm w = #a /\ Ensemble.xgboost w = #b /\
    (a + b == 1)%Q /\ (a <= b)%Q.
Proof.
  intros w.
  destruct (optimal_weights_are_normalised [1; -3]%Q [1; -1]%Q) as (H & _);
    [discriminate | discriminate |].
  destruct H as (a & b & ml & mx & Ha & Hb & Hml & Hmx & _ & _ & Hsum & _).
  exists a, b. split; [exact Ha|]. split; [exact Hb|]. split; [exact Hsum|].
  fold w in Ha, Hb. vm_compute in Ha, Hb. injection Ha as <-. injection Hb as <-.
  vm_compute. discriminate.
Defined.


Section CombinerFacts.
Import Predictor.

Lemma Qabs_le_iff (x b : Q) : (Qabs x <= b <-> - b <= x <= b)%Q.
Proof. apply Qabs_Qle_condition. Qed.

Lemma fallback_shape (features : list num) (s p : Q) :
  exists k : Q,
    (- (0.008) <= k <= 0.008)%Q /\
    eqn (predictXGBoostFallback features #s #p) #(0.9 * s + 0.1 * (p + k * p)).
Proof.
  unfold predictXGBoostFallback.
  generalize (or_else (at_index features (Z.of_nat (length features) - 5)) #0).
  generalize (or_else (at_index features (Z.of_nat (length features) - 4)) #0).
  generalize (or_else (at_index features 5) #50).
  intros rsi m10 m5.
  destruct (gt m5 #0 && gt m10 #0); [|destruct (lt m5 #0 && lt m10 #0)];
    (destruct (gt rsi #70); [|destruct (lt rsi #30)]);
    cbn [neg mul add sub];
    first [ exists 0.008%Q; split; [split; discriminate | cbn [eqn]; lra]
          | exists 0.005%Q; split; [split; discriminate | cbn [eqn]; lra]
          | exists 0.003%Q; split; [split; discriminate | cbn [eqn]; lra]
          | exists 0.002%Q; split; [split; discriminate | cbn [eqn]; lra]
          | exists 0%Q; split; [split; discriminate | cbn [eqn]; lra]
          | exists (-(0.002))%Q; split; [split; discriminate | cbn [eqn]; lra]
          | exists (-(0.003))%Q; split; [split; discriminate | cbn [eqn]; lra]
          | exists (-(0.005))%Q; split; [split; discriminate | cbn [eqn]; lra]
          | exists (-(0.008))%Q; split; [split; discriminate | cbn [eqn]; lra] ].
Qed.

(** X20.  Whatever the feature row holds, the tabular estimate derived from
    a finite sequence prediction [s] and a finite current price [p] is
    finite and within 0.08% of the current price of the plain blend
    [0.9 s + 0.1 p]. *)
Theorem fallback_stays_near_the_blend (features : list num) (s p : Q) :
  exists y,
    predictXGBoostFallback features #s #p = #y /\
    (Qabs (y - (0.9 * s + 0.1 * p)) <= 0.0008 * Qabs p)%Q.
Proof.
  destruct (fallback_shape features s p) as (k & Hk & H).
  destruct (predictXGBoostFallback features #s #p) as [y| | |]; cbn [eqn] in H;
    try contradiction.
  exists y. split; [reflexivity|]. apply Qabs_le_iff.
  destruct (Qlt_le_dec p 0) as [Hneg|Hpos].
  - rewrite (Qabs_neg p) by lra. split; nra.
  - rewrite (Qabs_pos p) by lra. split; nra.
Qed.

(** X21.  With no ensemble configuration loaded and no weight option, the
    final prediction built from a finite sequence prediction [s] and a
    finite current price [p] is finite and within 0.032% of the current
    price of [0.96 s + 0.04 p]: the sequence model carries 96% of it. *)
Theorem default_ensemble_is_mostly_the_sequence_model (features : list num) (s p : Q) :
  exists y,
    ensemblePrediction #s (predictXGBoostFallback features #s #p) #p
      (effective_config None None) = #y /\
    (Qabs (y - (0.96 * s + 0.04 * p)) <= 0.00032 * Qabs p)%Q.
Proof.
  destruct (fallback_shape features s p) as (k & Hk & H).
  destruct (predictXGBoostFallback features #s #p) as [x| | |]; cbn [eqn] in H;
    try contradiction.
  unfold ensemblePrediction, effective_config.
  cbn [lstm_weight xgboost_weight lstm_bias_correction xgboost_bias_correction
       or_else add sub neg mul].
  eexists. split; [reflexivity|]. apply Qabs_le_iff.
  destruct (Qlt_le_dec p 0) as [Hneg|Hpos].
  - rewrite (Qabs_neg p) by lra. split; nra.
  - rewrite (Qabs_pos p) by lra. split; nra.
Qed.

End CombinerFacts.

Section TradingDayFacts.
Import TradingDay.

(** X22.  The target day is the first day after today that is neither a
    Saturday nor a Sunday, at 16:00: it falls on Monday to Friday, one to
    three days ahead, and every day in between is a Saturday or a Sunday. *)
Theorem next_trading_day_is_the_next_weekday (now : LocalTime) :
  let target := getNextTradingDay now in
  (1 <= getDay target <= 5)%Z /\
  (day now < day target <= day now + 3)%Z /\
  ms target = 57600000%Z /\
  (forall d, (day now < d < day target)%Z ->
     getDay {| day := d; ms := 0 |} = 0%Z \/ getDay {| day := d; ms := 0 |} = 6%Z).
Proof.
  intros target. unfold target, getNextTradingDay, getDay. cbn [day ms].
  destruct (Z.eqb_spec ((day now + 4) mod 7) 5) as [E5|N5];
    destruct (Z.eqb_spec ((day now + 4) mod 7) 6) as [E6|N6];
    repeat split; try reflexivity; try (intros d Hd); Z.div_mod_to_equations; lia.
Qed.

End TradingDayFacts.

Lemma next_trading_day_is_the_next_weekday_witness :
  let friday := {| TradingDay.day := 1; TradingDay.ms := 36000000 |} in
  TradingDay.getDay friday = 5%Z /\
  TradingDay.day (TradingDay.getNextTradingDay friday) = 4%Z /\
  (TradingDay.getDay {| TradingDay.day := 2; TradingDay.ms := 0 |} = 0%Z \/
   TradingDay.getDay {| TradingDay.day := 2; TradingDay.ms := 0 |} = 6%Z).
Proof.
  intros friday.
  destruct (next_trading_day_is_the_next_weekday friday) as (_ & _ & _ & H).
  split; [reflexivity|]. split; [reflexivity|].
  apply H. split; reflexivity.
Defined.

(** ** The technical-analysis prediction *)

Section TechnicalFacts.
Import Types TechnicalPrediction.
Variable sqrt : num -> num.

Lemma tally_scores cur ind hist :
  exists sig (b r : Q),
    tally cur ind hist = (sig, #b, #r) /\
    (0 <= b)%Q /\ (0 <= r)%Q /\ (3 <= b + r <= 6.5)%Q /\
    ((b == r)%Q \/ (0.5 <= b - r)%Q \/ (0.5 <= r - b)%Q).
Proof.
  unfold tally. generalize (recent_momentum hist). intros momentum.
  destruct (lt (rsi ind) #30); [|destruct (gt (rsi ind) #70); [|destruct (lt (rsi ind) #50)]];
    destruct (gt (histogram (macd_ ind)) #0);
    destruct (gt cur (sma20 ind));
    destruct (gt cur (sma50 ind));
    (destruct (lt cur (lower (bollingerBands ind)));
       [|destruct (gt cur (upper (bollingerBands ind)))]);
    (destruct (gt momentum #0.02); [|destruct (lt momentum (neg #0.02))]);
    cbn [bullish bearish add];
    do 3 eexists; (split; [reflexivity|]);
    (split; [discriminate|]); (split; [discriminate|]);
    (split; [split; discriminate|]);
    first [ left; reflexivity | right; left; discriminate | right; right; discriminate ].
Qed.

Lemma Qfloor_half_bounds (x : Q) :
  (0 <= x <= 100)%Q -> (0 <= Qfloor (x + 0.5) <= 100)%Z.
Proof.
  intros [H0 H1]. split.
  - change 0%Z with (Qfloor 0). apply Qfloor_resp_le. lra.
  - assert (H : (Qfloor (x + 0.5) <= Qfloor (100 + 0.5))%Z)
      by (apply Qfloor_resp_le; lra).
    exact H.
Qed.

(** X24.  Whatever the indicators, the prices and the current price are
    (also [NaN]), the technical prediction tallies finite scores whose sum
    lies between 3 and 6.5; its confidence is a whole number of [[0,100]];
    its direction is [up] exactly when the bullish score is the larger,
    [down] exactly when the bearish one is, and [neutral] exactly when the
    confidence is 0. *)
Theorem technical_prediction_confidence cur ind hist :
  let r := generateTechnicalPrediction sqrt cur (Some ind) hist in
  exists (c : Z) (b br : Q),
    confidence r = #(inject_Z c) /\ scores r = Some (#b, #br) /\
    (0 <= c <= 100)%Z /\ (3 <= b + br <= 6.5)%Q /\
    (direction r = Predictor.up <-> (br < b)%Q) /\
    (direction r = Predictor.down <-> (b < br)%Q) /\
    (direction r = Predictor.neutral <-> c = 0%Z).
Proof.
  intros r. unfold r, generateTechnicalPrediction.
  destruct (tally_scores cur ind hist) as (sig & b & br & -> & Hb & Hbr & Ht & Hhalf).
  cbn [add sub neg abs confidence scores direction].
  assert (Egt : gt #(b + br) #0 = true) by (apply lt_Fin; lra).
  rewrite Egt, div_Fin by lra. cbn [mul round].
  set (x := (Qabs (b + - br) / (b + br) * 100)%Q).
  assert (Hx0 : (0 <= Qabs (b + - br) / (b + br))%Q).
  { apply Qle_shift_div_l; [lra|]. pose proof (Qabs_nonneg (b + - br)). lra. }
  assert (Hx1 : (Qabs (b + - br) / (b + br) <= 1)%Q).
  { apply Qle_shift_div_r; [lra|]. apply Qabs_Qle_condition. lra. }
  exists (Qfloor (x + 0.5)), b, br.
  split; [reflexivity|]. split; [reflexivity|].
  split; [apply Qfloor_half_bounds; unfold x; lra|].
  split; [exact Ht|].
  assert (Hdir : (if gt #b #br then Predictor.up
                  else if lt #b #br then Predictor.down else Predictor.neutral)
                 = (if Qlt_le_dec br b then Predictor.up
                    else if Qlt_le_dec b br then Predictor.down else Predictor.neutral)).
  { unfold gt. destruct (lt #br #b) eqn:E1; [apply lt_Fin in E1|apply lt_Fin_false in E1];
      destruct (Qlt_le_dec br b); try lra; try reflexivity.
    destruct (lt #b #br) eqn:E2; [apply lt_Fin in E2|apply lt_Fin_false in E2];
      destruct (Qlt_le_dec b br); try lra; reflexivity. }
  rewrite Hdir.
  destruct (Qlt_le_dec br b) as [Hup|Hnup]; [|destruct (Qlt_le_dec b br) as [Hdn|Hndn]].
  - split; [split; [auto | reflexivity]|]. split; [split; [discriminate | lra]|].
    split; [discriminate|]. intros Hc. exfalso.
    assert (H8 : (8 <= Qfloor (x + 0.5))%Z).
    { change 8%Z with (Qfloor 8). apply Qfloor_resp_le. unfold x.
      rewrite Qabs_pos by lra.
      assert (Hq : (0.075 <= (b + - br) / (b + br))%Q)
        by (apply Qle_shift_div_l; lra).
      lra. }
    lia.
  - split; [split; [discriminate | lra]|]. split; [split; [auto | reflexivity]|].
    split; [discriminate|]. intros Hc. exfalso.
    assert (H8 : (8 <= Qfloor (x + 0.5))%Z).
    { change 8%Z with (Qfloor 8). apply Qfloor_resp_le. unfold x.
      rewrite Qabs_neg by lra.
      assert (Hq : (0.075 <= - (b + - br) / (b + br))%Q)
        by (apply Qle_shift_div_l; lra).
      lra. }
    lia.
  - split; [split; [discriminate | lra]|]. split; [split; [discriminate | lra]|].
    split; [intros _ | reflexivity].
    assert (Hz : (x == 0)%Q).
    { unfold x. assert (E : (b + - br == 0)%Q) by lra. rewrite E. reflexivity. }
    rewrite Hz. reflexivity.
Qed.

End TechnicalFacts.

Lemma technical_prediction_confidence_witness :
  let ind :=
    {| Types.rsi := #25;
       Types.macd_ := {| Types.macd := #1; Types.signal := #0.5; Types.histogram := #0.5 |};
       Types.bollingerBands :=
         {| Types.upper := #120; Types.middle := #100; Types.lower := #80 |};
       Types.sma20 := #90; Types.sma50 := #90; Types.sma200 := #0;
       Types.ema12 := #95; Types.ema26 := #92 |} in
  let r := TechnicalPrediction.generateTechnicalPrediction (fun x => x) #100 (Some ind) [] in
  TechnicalPrediction.direction r = Predictor.up /\
  exists c : Z, TechnicalPrediction.confidence r = #(inject_Z c) /\ (0 <= c <= 100)%Z.
Proof.
  intros ind r.
  destruct (technical_prediction_confidence (fun x => x) #100 ind [])
    as (c & b & br & Hc & _ & Hrange & _).
  split; [reflexivity|]. exists c. split; [exact Hc | exact Hrange].
Defined.

(** ** More on the model loader *)

Section LoaderMoreFacts.
Import Str ModelLoader LoaderState.
Implicit Types (st : Loader) (e : Event).

Lemma apart_step st e st' : apart st -> step st e st' -> apart st'.
Proof.
  intros [Ha Hf] Hstep.
  destruct Hstep as [symbol st|pid s st Hlt Hnone|pid upper result st Hsus Hres|symbol st].
  - destruct (loadModels_cases symbol st)
      as [(m & _ & ->) | [(pid & _ & _ & ->) | (Hc & Hl & _ & Ec & El & _ & _ & En & Ef)]];
      [split; assumption | split; assumption |].
    split.
    + intros upper pid. rewrite Ec, El.
      destruct (decide (toUpperCase symbol = upper)) as [<-|Hne].
      * intros _. exact Hc.
      * rewrite lookup_insert_ne by assumption. apply Ha.
    + rewrite Ef, En, length_app, Hf. cbn. lia.
  - split; assumption.
  - split; [|exact Hf]. intros u p. cbn.
    destruct (decide (upper = u)) as [<-|Hne].
    + rewrite lookup_delete_eq. discriminate.
    + rewrite lookup_delete_ne, lookup_insert_ne by assumption. apply Ha.
  - unfold clearCache.
    destruct symbol as [s|]; [destruct (String.eqb s "")|]; split; cbn;
      try exact Hf; intros u p Hl; try apply lookup_empty.
    destruct (decide (toUpperCase s = u)) as [<-|Hne];
      [apply lookup_delete_eq | rewrite lookup_delete_ne by assumption; eauto].
Qed.

Lemma apart_steps st evs st' : apart st -> steps st evs st' -> apart st'.
Proof. intros H Hs. induction Hs; eauto using apart_step. Qed.

(** X23.  In every state that the loader can reach, a key that is being
    loaded is not in the cache (a cached key is never loaded again before it
    is evicted), and the number of artifact requests made so far is four
    times the number of loads started. *)
Theorem loads_and_cache_stay_apart st :
  reachable st ->
  (forall upper pid,
     loadingPromises st !! upper = Some pid -> modelCache st !! upper = None) /\
  (forall upper m,
     modelCache st !! upper = Some m -> loadingPromises st !! upper = None) /\
  length (fetched st) = (4 * next_promise st)%nat.
Proof.
  intros [evs Hsteps].
  assert (H0 : apart init) by (split; [intros u p; cbn; rewrite lookup_empty; discriminate | reflexivity]).
  destruct (apart_steps _ _ _ H0 Hsteps) as [Ha Hf].
  split; [exact Ha|]. split; [|exact Hf].
  intros upper m Hm. destruct (loadingPromises st !! upper) as [pid|] eqn:El; [|reflexivity].
  apply Ha in El. congruence.
Qed.

End LoaderMoreFacts.

Lemma loads_and_cache_stay_apart_witness :
  let st := (ModelLoader.loadModels "AAPL" ModelLoader.init).2 in
  ModelLoader.loadingPromises st !! "AAPL" = Some 0%nat /\
  ModelLoader.modelCache st !! "AAPL" = None /\
  length (ModelLoader.fetched st) = 4%nat.
Proof.
  intros st.
  assert (Hreach : ModelLoader.reachable st).
  { exists [ModelLoader.Call "AAPL"].
    eapply ModelLoader.steps_cons; [apply ModelLoader.step_call | apply ModelLoader.steps_nil]. }
  destruct (loads_and_cache_stay_apart st Hreach) as (Ha & _ & Hf).
  assert (Hl : ModelLoader.loadingPromises st !! "AAPL" = Some 0%nat) by reflexivity.
  split; [exact Hl|]. split; [exact (Ha "AAPL" 0%nat Hl) | exact Hf].
Defined.

Section SearchKeyFacts.
Import Str Types Aggregator.

(** X25.  Search results are cached without regard to case: a non-empty
    result fetched for a query is served, with no request to the source, to
    a call made within 60000 ms of the write for any query that differs
    from it only in the case of its letters. *)
Theorem search_cache_ignores_case now later now' later' src src' c query query' :
  toLowerCase query' = toLowerCase query ->
  query' <> "" ->
  (now' - later <= Cache.defaultTTL)%Z ->
  let r := searchStocks now later src query c in
  queries r <> [] -> is_absent (returned r) = false ->
  searchStocks now' later' src' query' (cache_after r)
  = {| returned := returned r; cache_after := cache_after r; queries := [] |}.
Proof.
  intros Hcase Hne Hage r Hq Ha.
  destruct (searchStocks_fetched now later src query c Hq Ha)
    as (_ & v & ttl & c1 & Hr & Hc).
  fold r in Hr, Hc. rewrite Hr, Hc. unfold searchStocks.
  destruct query' as [|a q']; [congruence|]. cbn [String.length Nat.ltb Nat.leb].
  unfold search_key. rewrite Hcase. fold (search_key query).
  now rewrite get_after_set.
Qed.

End SearchKeyFacts.

Lemma search_cache_ignores_case_witness :
  let hit := {| Types.s_symbol := "AAPL"; Types.s_name := "Apple Inc.";
                Types.s_exchange := "NMS"; Types.s_type := "EQUITY" |} in
  let up :=
    {| Aggregator.yahoo_getQuote := fun _ => None;
       Aggregator.alpha_getQuote := fun _ => None;
       Aggregator.yahoo_getHistoricalData := fun _ _ => [];
       Aggregator.alpha_getHistoricalData := fun _ _ => [];
       Aggregator.yahoo_searchStocks := fun _ => [hit] |} in
  let r := Aggregator.searchStocks 0 10 up "Apple" Cache.empty in
  Aggregator.searchStocks 1000 1010 up "APPLE" (Aggregator.cache_after r)
  = {| Aggregator.returned := Some (Aggregator.VSearch [hit]);
       Aggregator.cache_after := Aggregator.cache_after r;
       Aggregator.queries := [] |}.
Proof.
  intros hit up r.
  refine (search_cache_ignores_case 0 10 1000 1010 up up Cache.empty "Apple" "APPLE"
            eq_refl _ _ _ _).
  - discriminate.
  - vm_compute. discriminate.
  - discriminate.
  - reflexivity.
Defined.
